(** * Label designer: the element store and the canvas interaction controller

    A shallow embedding of [src/pages/Index.tsx] (the [Index] component):
    the element store ([addElement], [updateElement], [deleteElement]), the
    pointer handlers ([handleMouseDown], [handleMouseMove], [handleMouseUp],
    [handleResizeStart]), the property-panel [onChange] handlers and the
    preview renderer.

    Conventions of the embedding.
    - A JavaScript [number] is a value of [number]: [NaN], the two infinities
      or a finite value.  Finite values are exact rationals ([Q]): the
      rounding of IEEE doubles, their overflow and the sign of zero are not
      modelled, neither in the arithmetic nor in [parseInt], [parseFloat]
      and [String].  Statements over [number] are about what the program
      computes up to that rounding; where a statement of an exact equality
      depends on it, the code is embedded once more over binary64 floats
      ([Double]).
    - A React state variable is a field of [State].  A handler reads the
      state of the render it was created in and issues setter calls; the
      calls are committed in order once the handler is done, so a later call
      to the same setter replaces an earlier one.
    - Strings are sequences of 8-bit characters. *)

From Stdlib Require Import List String Ascii Bool ZArith QArith Qminmax Qround.
From Stdlib Require Import Lqa Lia Sorted DecimalString DecimalZ.
From Stdlib Require Import Floats.
Import ListNotations.

Local Open Scope string_scope.
Local Open Scope Z_scope.
Local Open Scope Q_scope.

(** ** JavaScript numbers *)

Inductive number : Type :=
  | NaN
  | PInf
  | NInf
  | Fin (q : Q).

Declare Scope num_scope.
Delimit Scope num_scope with num.
Bind Scope num_scope with number.

Definition num (z : Z) : number := Fin (inject_Z z).

Definition nneg (a : number) : number :=
  match a with
  | NaN => NaN
  | PInf => NInf
  | NInf => PInf
  | Fin q => Fin (- q)
  end.

Definition nadd (a b : number) : number :=
  match a, b with
  | NaN, _ | _, NaN => NaN
  | PInf, NInf | NInf, PInf => NaN
  | PInf, _ | _, PInf => PInf
  | NInf, _ | _, NInf => NInf
  | Fin p, Fin q => Fin (p + q)
  end.

Definition nsub (a b : number) : number :=
  match a, b with
  | NaN, _ | _, NaN => NaN
  | PInf, PInf | NInf, NInf => NaN
  | PInf, _ | _, NInf => PInf
  | NInf, _ | _, PInf => NInf
  | Fin p, Fin q => Fin (p - q)
  end.

(** The infinity whose sign is that of [c], the result of comparing a
    finite operand with zero; [NaN] for a zero operand. *)
Definition signed_inf (c : comparison) (positive : bool) : number :=
  match c with
  | Eq => NaN
  | Gt => if positive then PInf else NInf
  | Lt => if positive then NInf else PInf
  end.

Definition nmul (a b : number) : number :=
  match a, b with
  | NaN, _ | _, NaN => NaN
  | PInf, PInf | NInf, NInf => PInf
  | PInf, NInf | NInf, PInf => NInf
  | PInf, Fin q | Fin q, PInf => signed_inf (q ?= 0) true
  | NInf, Fin q | Fin q, NInf => signed_inf (q ?= 0) false
  | Fin p, Fin q => Fin (p * q)
  end.

Definition ndiv (a b : number) : number :=
  match a, b with
  | NaN, _ | _, NaN => NaN
  | (PInf | NInf), (PInf | NInf) => NaN
  | PInf, Fin q => if Qle_bool 0 q then PInf else NInf
  | NInf, Fin q => if Qle_bool 0 q then NInf else PInf
  | Fin _, (PInf | NInf) => Fin 0
  | Fin p, Fin q =>
      if Qeq_bool q 0 then signed_inf (p ?= 0) true else Fin (p / q)
  end.

(** Rounding towards zero. *)
Definition Qtrunc (q : Q) : Z :=
  if Qle_bool 0 q then Qfloor q else Qceiling q.

(** [a % b]: the remainder has the sign of the dividend. *)
Definition nrem (a b : number) : number :=
  match a, b with
  | NaN, _ | _, NaN => NaN
  | (PInf | NInf), _ => NaN
  | Fin p, (PInf | NInf) => Fin p
  | Fin p, Fin q =>
      if Qeq_bool q 0 then NaN
      else Fin (p - q * inject_Z (Qtrunc (p / q)))
  end.

Definition Math_max (a b : number) : number :=
  match a, b with
  | NaN, _ | _, NaN => NaN
  | PInf, _ | _, PInf => PInf
  | NInf, c | c, NInf => c
  | Fin p, Fin q => Fin (Qmax p q)
  end.

Definition Math_min (a b : number) : number :=
  match a, b with
  | NaN, _ | _, NaN => NaN
  | NInf, _ | _, NInf => NInf
  | PInf, c | c, PInf => c
  | Fin p, Fin q => Fin (Qmin p q)
  end.

Definition Math_floor (a : number) : number :=
  match a with
  | Fin q => Fin (inject_Z (Qfloor q))
  | other => other
  end.

(** [a <= b], [a > b] and [a === b] on numbers: all false on [NaN]. *)
Definition n_leb (a b : number) : bool :=
  match a, b with
  | NaN, _ | _, NaN => false
  | NInf, _ | _, PInf => true
  | PInf, _ | _, NInf => false
  | Fin p, Fin q => Qle_bool p q
  end.

Definition n_gtb (a b : number) : bool :=
  match a, b with
  | NaN, _ | _, NaN => false
  | PInf, PInf | NInf, NInf => false
  | PInf, _ | _, NInf => true
  | NInf, _ | _, PInf => false
  | Fin p, Fin q => negb (Qle_bool p q)
  end.

Definition n_strict_eqb (a b : number) : bool :=
  match a, b with
  | PInf, PInf | NInf, NInf => true
  | Fin p, Fin q => Qeq_bool p q
  | _, _ => false
  end.

Definition n_le (a b : number) : Prop := n_leb a b = true.


Definition finite (a : number) : Prop :=
  match a with Fin _ => True | _ => False end.

(** Same numeric value: equality of the rationals, not of their
    representations. *)
Definition n_eq (a b : number) : Prop :=
  match a, b with
  | NaN, NaN | PInf, PInf | NInf, NInf => True
  | Fin p, Fin q => p == q
  | _, _ => False
  end.

Infix "+" := nadd : num_scope.
Infix "-" := nsub : num_scope.
Infix "*" := nmul : num_scope.
Infix "/" := ndiv : num_scope.
Infix "<=" := n_le : num_scope.
Infix "==" := n_eq : num_scope.

(** ** Data model *)

Inductive ElementType : Type := text | barcode | price.

Definition ElementType_eqb (a b : ElementType) : bool :=
  match a, b with
  | text, text | barcode, barcode | price, price => true
  | _, _ => false
  end.

(** The string a value of the union type ["text" | "barcode" | "price"]
    is at run time. *)
Definition type_name (t : ElementType) : string :=
  match t with
  | text => "text"
  | barcode => "barcode"
  | price => "price"
  end.

Record LabelElement : Type := {
  el_id : string;
  el_type : ElementType;
  el_label : string;
  el_x : number;
  el_y : number;
  el_width : number;
  el_height : number;
  el_fontSize : number;
  el_color : string;
  el_value : string
}.

Record LabelConfig : Type := {
  cfg_width : number;
  cfg_height : number;
  cfg_quantity : number
}.

(** [Partial<LabelElement>]: [None] is a key the object does not have. *)
Record PartialElement : Type := {
  p_id : option string;
  p_type : option ElementType;
  p_label : option string;
  p_x : option number;
  p_y : option number;
  p_width : option number;
  p_height : option number;
  p_fontSize : option number;
  p_color : option string;
  p_value : option string
}.

Definition no_updates : PartialElement :=
  {| p_id := None; p_type := None; p_label := None; p_x := None;
     p_y := None; p_width := None; p_height := None; p_fontSize := None;
     p_color := None; p_value := None |}.

Definition override {A : Type} (given : option A) (old : A) : A :=
  match given with
  | Some v => v
  | None => old
  end.

(** [{ ...el, ...updates }] *)
Definition spread (el : LabelElement) (updates : PartialElement)
  : LabelElement :=
  {| el_id := override (p_id updates) (el_id el);
     el_type := override (p_type updates) (el_type el);
     el_label := override (p_label updates) (el_label el);
     el_x := override (p_x updates) (el_x el);
     el_y := override (p_y updates) (el_y el);
     el_width := override (p_width updates) (el_width el);
     el_height := override (p_height updates) (el_height el);
     el_fontSize := override (p_fontSize updates) (el_fontSize el);
     el_color := override (p_color updates) (el_color el);
     el_value := override (p_value updates) (el_value el) |}.

(** The state variables of the component ([useState]). *)
Record State : Type := {
  elements : list LabelElement;
  selectedElement : option string;
  draggedElement : option string;
  resizingElement : option (string * string);   (* { id, handle } *)
  labelConfig : LabelConfig;
  showPreview : bool
}.

Definition initialState : State :=
  {| elements := [];
     selectedElement := None;
     draggedElement := None;
     resizingElement := None;
     labelConfig :=
       {| cfg_width := num 50; cfg_height := num 30; cfg_quantity := num 10 |};
     showPreview := false |}.

(** A call of one of the state setters. *)
Inductive SetCall : Type :=
  | setElements (els : list LabelElement)
  | setSelectedElement (sel : option string)
  | setDraggedElement (d : option string)
  | setResizingElement (r : option (string * string))
  | setLabelConfig (c : LabelConfig)
  | setShowPreview (b : bool).

Definition apply_call (st : State) (c : SetCall) : State :=
  match c with
  | setElements els =>
      {| elements := els; selectedElement := selectedElement st;
         draggedElement := draggedElement st;
         resizingElement := resizingElement st;
         labelConfig := labelConfig st; showPreview := showPreview st |}
  | setSelectedElement sel =>
      {| elements := elements st; selectedElement := sel;
         draggedElement := draggedElement st;
         resizingElement := resizingElement st;
         labelConfig := labelConfig st; showPreview := showPreview st |}
  | setDraggedElement d =>
      {| elements := elements st; selectedElement := selectedElement st;
         draggedElement := d;
         resizingElement := resizingElement st;
         labelConfig := labelConfig st; showPreview := showPreview st |}
  | setResizingElement r =>
      {| elements := elements st; selectedElement := selectedElement st;
         draggedElement := draggedElement st;
         resizingElement := r;
         labelConfig := labelConfig st; showPreview := showPreview st |}
  | setLabelConfig c =>
      {| elements := elements st; selectedElement := selectedElement st;
         draggedElement := draggedElement st;
         resizingElement := resizingElement st;
         labelConfig := c; showPreview := showPreview st |}
  | setShowPreview b =>
      {| elements := elements st; selectedElement := selectedElement st;
         draggedElement := draggedElement st;
         resizingElement := resizingElement st;
         labelConfig := labelConfig st; showPreview := b |}
  end.

(** The state of the next render: the calls a handler issued, in order. *)
Definition commit (st : State) (calls : list SetCall) : State :=
  fold_left apply_call calls st.

(** ** Element store *)

Definition mmToPx (mm : number) : number := (mm * num 96 / Fin 25.4)%num.

(** [String(n)] for an integral [n], as in the template literal of
    [addElement]. *)
Definition string_of_integer (n : Z) : string :=
  NilZero.string_of_int (Z.to_int n).

(** [`${type}-${Date.now()}`]; [now] is the value [Date.now()] returned. *)
Definition element_id (type : ElementType) (now : Z) : string :=
  (type_name type ++ "-" ++ string_of_integer now)%string.

Definition newElement (type : ElementType) (now : Z) : LabelElement :=
  {| el_id := element_id type now;
     el_type := type;
     el_label :=
       match type with
       | text => "Nome"
       | price => "Preço"
       | barcode => "Código"
       end;
     el_x := num 10;
     el_y := num 10;
     el_width := match type with barcode => num 120 | _ => num 100 end;
     el_height := match type with barcode => num 40 | _ => num 30 end;
     el_fontSize := match type with barcode => num 12 | _ => num 16 end;
     el_color := "#000000";
     el_value :=
       match type with
       | price => "R$ 0,00"
       | barcode => "123456789"
       | text => "Texto"
       end |}.

Definition addElement (st : State) (type : ElementType) (now : Z)
  : list SetCall :=
  [ setElements (elements st ++ [newElement type now]);
    setSelectedElement (Some (el_id (newElement type now))) ].

Definition updateElement (st : State) (id : string)
  (updates : PartialElement) : list SetCall :=
  [ setElements
      (map (fun el => if (el_id el =? id)%string then spread el updates else el)
           (elements st)) ].

(** [selectedElement === id] *)
Definition is_selected (st : State) (id : string) : bool :=
  match selectedElement st with
  | Some s => (s =? id)%string
  | None => false
  end.

Definition deleteElement (st : State) (id : string) : list SetCall :=
  setElements (filter (fun el => negb (el_id el =? id)%string) (elements st))
  :: (if is_selected st id then [setSelectedElement None] else []).

(** [elements.find((el) => el.id === id)] *)
Definition find_element (st : State) (id : string) : option LabelElement :=
  find (fun el => (el_id el =? id)%string) (elements st).

(** ** Canvas interaction controller *)

(** The handles of the selected element. *)
Definition resize_handles : list string := ["se"; "sw"; "ne"; "nw"].

(** What [handleMouseMove] reads of its event: the pointer position and the
    bounding rectangle of the canvas. *)
Record MouseEvent : Type := {
  clientX : number;
  clientY : number;
  rect_left : number;
  rect_top : number
}.

Definition handleMouseDown (st : State) (id : string) : list SetCall :=
  [ setDraggedElement (Some id); setSelectedElement (Some id) ].

Definition handleMouseUp (st : State) : list SetCall :=
  [ setDraggedElement None; setResizingElement None ].

Definition handleResizeStart (st : State) (id handle : string)
  : list SetCall :=
  [ setResizingElement (Some (id, handle)); setSelectedElement (Some id) ].

(** A string or [null] in a condition: [null] and the empty string are
    falsy. *)
Definition truthy (s : option string) : option string :=
  match s with
  | Some "" => None
  | other => other
  end.

(** The update of the drag branch of [handleMouseMove]. *)
Definition dragUpdates (element : LabelElement) (e : MouseEvent)
  : PartialElement :=
  let x := (clientX e - rect_left e - el_width element / num 2)%num in
  let y := (clientY e - rect_top e - el_height element / num 2)%num in
  {| p_id := None; p_type := None; p_label := None;
     p_x := Some (Math_max (num 0) x);
     p_y := Some (Math_max (num 0) y);
     p_width := None; p_height := None; p_fontSize := None;
     p_color := None; p_value := None |}.

(** The geometry of the resize branch. *)
Record Geometry : Type := {
  newWidth : number;
  newHeight : number;
  newX : number;
  newY : number
}.

(** The [switch (resizingElement.handle)] of [handleMouseMove], starting
    from the geometry of [element]. *)
Definition resizeGeometry (element : LabelElement) (handle : string)
  (mouseX mouseY : number) : Geometry :=
  let x := el_x element in
  let y := el_y element in
  let width := el_width element in
  let height := el_height element in
  if (handle =? "se")%string then
    {| newWidth := Math_max (num 30) (mouseX - x);
       newHeight := Math_max (num 20) (mouseY - y);
       newX := x;
       newY := y |}
  else if (handle =? "sw")%string then
    {| newWidth := Math_max (num 30) (x + width - mouseX);
       newHeight := Math_max (num 20) (mouseY - y);
       newX := Math_min mouseX (x + width - num 30);
       newY := y |}
  else if (handle =? "ne")%string then
    {| newWidth := Math_max (num 30) (mouseX - x);
       newHeight := Math_max (num 20) (y + height - mouseY);
       newX := x;
       newY := Math_min mouseY (y + height - num 20) |}
  else if (handle =? "nw")%string then
    {| newWidth := Math_max (num 30) (x + width - mouseX);
       newHeight := Math_max (num 20) (y + height - mouseY);
       newX := Math_min mouseX (x + width - num 30);
       newY := Math_min mouseY (y + height - num 20) |}
  else
    {| newWidth := width; newHeight := height; newX := x; newY := y |}.

(** The update of the resize branch of [handleMouseMove]. *)
Definition resizeUpdates (element : LabelElement) (handle : string)
  (e : MouseEvent) : PartialElement :=
  let mouseX := (clientX e - rect_left e)%num in
  let mouseY := (clientY e - rect_top e)%num in
  let g := resizeGeometry element handle mouseX mouseY in
  {| p_id := None; p_type := None; p_label := None;
     p_x := Some (newX g);
     p_y := Some (newY g);
     p_width := Some (newWidth g);
     p_height := Some (newHeight g);
     p_fontSize := None; p_color := None; p_value := None |}.

(** The drag branch: [None] when the handler returns from it. *)
Definition dragBranch (st : State) (e : MouseEvent)
  : option (list SetCall) :=
  match truthy (draggedElement st) with
  | Some d =>
      match find_element st d with
      | None => None
      | Some element => Some (updateElement st d (dragUpdates element e))
      end
  | None => Some []
  end.

Definition resizeBranch (st : State) (e : MouseEvent) : list SetCall :=
  match resizingElement st with
  | Some (id, handle) =>
      match find_element st id with
      | None => []
      | Some element => updateElement st id (resizeUpdates element handle e)
      end
  | None => []
  end.

(** Both branches read the [elements] of the same render. *)
Definition handleMouseMove (st : State) (e : MouseEvent) : list SetCall :=
  match dragBranch st e with
  | None => []
  | Some calls => calls ++ resizeBranch st e
  end.

(** ** Property panel *)

(** White space skipped by [parseInt] and [parseFloat]: TAB, LF, VT, FF,
    CR, SP and NBSP. *)
Definition isWhiteSpace (c : ascii) : bool :=
  let n := nat_of_ascii c in
  ((9 <=? n)%nat && (n <=? 13)%nat) || (n =? 32)%nat || (n =? 160)%nat.

Fixpoint trimStart (s : string) : string :=
  match s with
  | String c rest => if isWhiteSpace c then trimStart rest else s
  | EmptyString => s
  end.

(** The value of a character as a digit: 0-9, then a-z or A-Z for 10-35. *)
Definition digit_value (c : ascii) : option Z :=
  let n := Z.of_nat (nat_of_ascii c) in
  if ((48 <=? n) && (n <=? 57))%Z then Some (n - 48)%Z
  else if ((97 <=? n) && (n <=? 122))%Z then Some (n - 87)%Z
  else if ((65 <=? n) && (n <=? 90))%Z then Some (n - 55)%Z
  else None.

(** The longest prefix of digits of radix [R], and what follows it. *)
Fixpoint span_digits (R : Z) (s : string) : list Z * string :=
  match s with
  | String c rest =>
      match digit_value c with
      | Some d =>
          if (d <? R)%Z then
            let (ds, tail) := span_digits R rest in (d :: ds, tail)
          else ([], s)
      | None => ([], s)
      end
  | EmptyString => ([], s)
  end.

Definition digits_value (R : Z) (ds : list Z) : Z :=
  fold_left (fun acc d => (acc * R + d)%Z) ds 0%Z.

(** A leading sign: the factor, and the rest. *)
Definition split_sign (s : string) : Z * string :=
  match s with
  | String "-" rest => ((-1)%Z, rest)
  | String "+" rest => (1%Z, rest)
  | _ => (1%Z, s)
  end.

(** [parseInt(s)], no radix given. *)
Definition parseInt (s : string) : number :=
  let (sign, s1) := split_sign (trimStart s) in
  let (R, s2) :=
    match s1 with
    | String "0" (String "x" rest) | String "0" (String "X" rest) =>
        (16%Z, rest)
    | _ => (10%Z, s1)
    end in
  match fst (span_digits R s2) with
  | [] => NaN
  | ds => num (sign * digits_value R ds)
  end.

(** An exponent part [e], [e+] or [e-] followed by at least one digit;
    0 when there is none. *)
Definition exponent_part (s : string) : Z :=
  match s with
  | String "e" rest | String "E" rest =>
      let (sign, s1) := split_sign rest in
      match fst (span_digits 10 s1) with
      | [] => 0%Z
      | ds => (sign * digits_value 10 ds)%Z
      end
  | _ => 0%Z
  end.

(** [parseFloat(s)]: the value of the longest prefix that is a decimal
    literal. *)
Definition parseFloat (s : string) : number :=
  let (sign, s1) := split_sign (trimStart s) in
  if prefix "Infinity" s1 then (if (sign <? 0)%Z then NInf else PInf)
  else
    let (int_digits, s2) := span_digits 10 s1 in
    let (frac_digits, s3) :=
      match s2 with
      | String "." rest => span_digits 10 rest
      | _ => ([], s2)
      end in
    match (int_digits ++ frac_digits)%list with
    | [] => NaN
    | ds =>
        Fin (inject_Z (sign * digits_value 10 ds)
             * 10 ^ (exponent_part s3 - Z.of_nat (List.length frac_digits)))
    end.

(** [const selected = elements.find((el) => el.id === selectedElement)] *)
Definition selected (st : State) : option LabelElement :=
  match selectedElement st with
  | Some s => find_element st s
  | None => None
  end.

(** The inputs of the selected element are rendered only when [selected]
    is defined; [text] is [e.target.value]. *)
Definition onChange_label (st : State) (text : string) : list SetCall :=
  match selected st with
  | Some sel =>
      updateElement st (el_id sel)
        {| p_id := None; p_type := None; p_label := Some text; p_x := None;
           p_y := None; p_width := None; p_height := None;
           p_fontSize := None; p_color := None; p_value := None |}
  | None => []
  end.

Definition onChange_value (st : State) (text : string) : list SetCall :=
  match selected st with
  | Some sel =>
      updateElement st (el_id sel)
        {| p_id := None; p_type := None; p_label := None; p_x := None;
           p_y := None; p_width := None; p_height := None;
           p_fontSize := None; p_color := None; p_value := Some text |}
  | None => []
  end.

Definition onChange_fontSize (st : State) (text : string) : list SetCall :=
  match selected st with
  | Some sel =>
      updateElement st (el_id sel)
        {| p_id := None; p_type := None; p_label := None; p_x := None;
           p_y := None; p_width := None; p_height := None;
           p_fontSize := Some (parseInt text);
           p_color := None; p_value := None |}
  | None => []
  end.

Definition onChange_color (st : State) (text : string) : list SetCall :=
  match selected st with
  | Some sel =>
      updateElement st (el_id sel)
        {| p_id := None; p_type := None; p_label := None; p_x := None;
           p_y := None; p_width := None; p_height := None;
           p_fontSize := None; p_color := Some text; p_value := None |}
  | None => []
  end.

Definition onChange_width (st : State) (text : string) : list SetCall :=
  [ setLabelConfig
      {| cfg_width := parseFloat text;
         cfg_height := cfg_height (labelConfig st);
         cfg_quantity := cfg_quantity (labelConfig st) |} ].

Definition onChange_height (st : State) (text : string) : list SetCall :=
  [ setLabelConfig
      {| cfg_width := cfg_width (labelConfig st);
         cfg_height := parseFloat text;
         cfg_quantity := cfg_quantity (labelConfig st) |} ].

Definition onChange_quantity (st : State) (text : string) : list SetCall :=
  [ setLabelConfig
      {| cfg_width := cfg_width (labelConfig st);
         cfg_height := cfg_height (labelConfig st);
         cfg_quantity := parseInt text |} ].

(** ** Canvas and preview *)

Definition labelWidth (st : State) : number :=
  mmToPx (cfg_width (labelConfig st)).

Definition labelHeight (st : State) : number :=
  mmToPx (cfg_height (labelConfig st)).

(** The style of the edit canvas: its width and height in px. *)
Definition canvasSize (st : State) : number * number :=
  (labelWidth st, labelHeight st).

(** [ToLength]: [NaN] and negative lengths are 0, the length is truncated
    and at most 2^53 - 1. *)
Definition ToLength (len : number) : Z :=
  match len with
  | NaN | NInf => 0%Z
  | PInf => (2 ^ 53 - 1)%Z
  | Fin q => Z.min (Z.max 0 (Qtrunc q)) (2 ^ 53 - 1)
  end.

(** The indices of [Array.from({ length: len })]; [None] is the
    [RangeError] of an array length above 2^32 - 1. *)
Definition Array_from_length (len : number) : option (list nat) :=
  let n := ToLength len in
  if (n <=? 2 ^ 32 - 1)%Z then Some (seq 0 (Z.to_nat n)) else None.

(** An element of a preview copy: its style in percent, and its content. *)
Record PreviewElement : Type := {
  pe_key : string;
  pe_left : number;      (* % *)
  pe_top : number;       (* % *)
  pe_width : number;     (* % *)
  pe_height : number;    (* % *)
  pe_fontSize : number;  (* px *)
  pe_color : string;
  pe_framed : bool;      (* the bordered monospace box of a barcode *)
  pe_content : string
}.

(** A copy of the label in the preview: its style in mm. *)
Record PreviewCopy : Type := {
  pc_key : nat;
  pc_pageBreak : bool;
  pc_width : number;     (* mm *)
  pc_height : number;    (* mm *)
  pc_children : list PreviewElement
}.

Definition previewElement (st : State) (element : LabelElement)
  : PreviewElement :=
  {| pe_key := el_id element;
     pe_left := (el_x element / labelWidth st * num 100)%num;
     pe_top := (el_y element / labelHeight st * num 100)%num;
     pe_width := (el_width element / labelWidth st * num 100)%num;
     pe_height := (el_height element / labelHeight st * num 100)%num;
     pe_fontSize := el_fontSize element;
     pe_color := el_color element;
     pe_framed := ElementType_eqb (el_type element) barcode;
     pe_content := el_value element |}.

Definition previewCopy (st : State) (index : nat) : PreviewCopy :=
  let labelsPerRow :=
    Math_floor (num 210 / cfg_width (labelConfig st)) in
  let labelsPerPage :=
    (labelsPerRow * Math_floor (num 297 / cfg_height (labelConfig st)))%num in
  let needsPageBreak :=
    n_gtb (num (Z.of_nat index)) (num 0)
    && n_strict_eqb (nrem (num (Z.of_nat index)) labelsPerPage) (num 0) in
  {| pc_key := index;
     pc_pageBreak := needsPageBreak;
     pc_width := cfg_width (labelConfig st);
     pc_height := cfg_height (labelConfig st);
     pc_children := map (previewElement st) (elements st) |}.

(** The content of the print container. *)
Definition preview (st : State) : option (list PreviewCopy) :=
  option_map (map (previewCopy st))
             (Array_from_length (cfg_quantity (labelConfig st))).

(** A length of a [style], as its template literal writes it: the number
    and then the unit. *)
Inductive CssLength : Type :=
  | Px (v : number)
  | Mm (v : number)
  | Percent (v : number).

(** The [width] and [height] of the [style] of the edit canvas. *)
Definition canvasStyle (st : State) : CssLength * CssLength :=
  (Px (labelWidth st), Px (labelHeight st)).

(** The [width] and [height] of the [style] of a copy of the preview. *)
Definition copyStyle (copy : PreviewCopy) : CssLength * CssLength :=
  (Mm (pc_width copy), Mm (pc_height copy)).

(** The [left], [top], [width] and [height] of the [style] of an element
    of a copy. *)
Definition boxStyle (pe : PreviewElement)
  : CssLength * CssLength * CssLength * CssLength :=
  (Percent (pe_left pe), Percent (pe_top pe),
   Percent (pe_width pe), Percent (pe_height pe)).

(** ** Events *)

(** The events the component handles, each with what its handler reads. *)
Inductive Event : Type :=
  | ClickAdd (type : ElementType) (now : Z)
  | ClickCard (id : string)
  | ClickDelete (id : string)
  | MouseDownElement (id : string)
  | MouseDownHandle (id handle : string)
  | MouseMove (e : MouseEvent)
  | MouseUp
  | MouseLeave
  | ChangeLabel (text : string)
  | ChangeValue (text : string)
  | ChangeFontSize (text : string)
  | ChangeColor (text : string)
  | ChangeWidth (text : string)
  | ChangeHeight (text : string)
  | ChangeQuantity (text : string)
  | OpenChangePreview (open : bool).

Definition handler (st : State) (ev : Event) : list SetCall :=
  match ev with
  | ClickAdd type now => addElement st type now
  | ClickCard id => [setSelectedElement (Some id)]
  | ClickDelete id => deleteElement st id
  | MouseDownElement id => handleMouseDown st id
  | MouseDownHandle id handle => handleResizeStart st id handle
  | MouseMove e => handleMouseMove st e
  | MouseUp | MouseLeave => handleMouseUp st
  | ChangeLabel t => onChange_label st t
  | ChangeValue t => onChange_value st t
  | ChangeFontSize t => onChange_fontSize st t
  | ChangeColor t => onChange_color st t
  | ChangeWidth t => onChange_width st t
  | ChangeHeight t => onChange_height st t
  | ChangeQuantity t => onChange_quantity st t
  | OpenChangePreview b => [setShowPreview b]
  end.

(** An event is handled against the current render and its calls are
    committed before the next event. *)
Definition step (st : State) (ev : Event) : State :=
  commit st (handler st ev).

Definition run (st : State) (evs : list Event) : State :=
  fold_left step evs st.

(** [ev] can be fired on what the render of [st] shows: a card, a delete
    button and a body for each element, the four handles on the selected
    element only, and the inputs of the selected element when there is
    one. *)
Definition rendered (st : State) (ev : Event) : Prop :=
  match ev with
  | ClickCard id | ClickDelete id | MouseDownElement id =>
      exists el, In el (elements st) /\ el_id el = id
  | MouseDownHandle id handle =>
      selectedElement st = Some id /\
      (exists el, In el (elements st) /\ el_id el = id) /\
      In handle resize_handles
  | ChangeLabel _ | ChangeValue _ | ChangeFontSize _ | ChangeColor _ =>
      selected st <> None
  | _ => True
  end.

(** Each event of [evs] is fired on the render it meets. *)
Fixpoint fired (st : State) (evs : list Event) : Prop :=
  match evs with
  | [] => True
  | ev :: rest => rendered st ev /\ fired (step st ev) rest
  end.

(** The selection is [null] or the id of an element of the store. *)
Definition selection_valid (st : State) : Prop :=
  match selectedElement st with
  | Some s => exists el, In el (elements st) /\ el_id el = s
  | None => True
  end.

(** ** The store operations on their own *)

Inductive StoreOp : Type :=
  | Add (type : ElementType) (now : Z)
  | Update (id : string) (updates : PartialElement)
  | Remove (id : string).

Definition store_step (st : State) (op : StoreOp) : State :=
  commit st
    match op with
    | Add type now => addElement st type now
    | Update id updates => updateElement st id updates
    | Remove id => deleteElement st id
    end.

Definition store_run (st : State) (ops : list StoreOp) : State :=
  fold_left store_step ops st.

(** What the [Add] operations of a history read: the type asked for and
    the clock. *)
Fixpoint additions (ops : list StoreOp) : list (ElementType * Z) :=
  match ops with
  | [] => []
  | Add type now :: rest => (type, now) :: additions rest
  | _ :: rest => additions rest
  end.

(** The ids handed out over a history, oldest first. *)
Definition issued_ids (ops : list StoreOp) : list string :=
  map (fun a => element_id (fst a) (snd a)) (additions ops).

(** No [Update] of the history carries an [id] key. *)
Definition updates_keep_id (ops : list StoreOp) : Prop :=
  forall id updates, In (Update id updates) ops -> p_id updates = None.

Definition ids (st : State) : list string := map el_id (elements st).

(** [l] is [m] with some entries left out, the order kept. *)
Inductive subsequence {A : Type} : list A -> list A -> Prop :=
  | subsequence_nil : subsequence [] []
  | subsequence_skip : forall a l m,
      subsequence l m -> subsequence l (a :: m)
  | subsequence_keep : forall a l m,
      subsequence l m -> subsequence (a :: l) (a :: m).

(** ** Predicates of the statements *)

Definition finite_geometry (el : LabelElement) : Prop :=
  finite (el_x el) /\ finite (el_y el) /\
  finite (el_width el) /\ finite (el_height el).

Definition finite_event (e : MouseEvent) : Prop :=
  finite (clientX e) /\ finite (clientY e) /\
  finite (rect_left e) /\ finite (rect_top e).

Definition pointer_finite (ev : Event) : Prop :=
  match ev with
  | MouseMove e => finite_event e
  | _ => True
  end.

(** The minimum size of the resize path. *)
Definition min_size (el : LabelElement) : Prop :=
  (num 30 <= el_width el)%num /\ (num 20 <= el_height el)%num.

(** An element of finite geometry that has the minimum size. *)
Definition well_sized (el : LabelElement) : Prop :=
  finite_geometry el /\ min_size el.


(** The canvas-relative pointer position. *)
Definition pointerX (e : MouseEvent) : number := (clientX e - rect_left e)%num.
Definition pointerY (e : MouseEvent) : number := (clientY e - rect_top e)%num.

(** [new] is [old] moved to [(x, y)]: nothing else differs. *)
Definition moved_to (x y : number) (old new : LabelElement) : Prop :=
  new = {| el_id := el_id old; el_type := el_type old;
           el_label := el_label old; el_x := x; el_y := y;
           el_width := el_width old; el_height := el_height old;
           el_fontSize := el_fontSize old; el_color := el_color old;
           el_value := el_value old |}.

(** The edge opposite to [handle] is where it was. *)
Definition anchored (handle : string) (old new : LabelElement) : Prop :=
  (handle = "se" -> el_x new = el_x old /\ el_y new = el_y old) /\
  (handle = "sw" ->
     (el_x new + el_width new == el_x old + el_width old)%num /\
     el_y new = el_y old) /\
  (handle = "ne" ->
     (el_y new + el_height new == el_y old + el_height old)%num /\
     el_x new = el_x old) /\
  (handle = "nw" ->
     (el_x new + el_width new == el_x old + el_width old)%num /\
     (el_y new + el_height new == el_y old + el_height old)%num).

(** A drag is recorded for an id no element has. *)
Definition stale_drag (st : State) : Prop :=
  exists d, truthy (draggedElement st) = Some d /\ find_element st d = None.

(** A resize is recorded for an id no element has. *)
Definition stale_resize (st : State) : Prop :=
  exists id handle,
    resizingElement st = Some (id, handle) /\ find_element st id = None.

(** A resize of an element of the store is in progress. *)
Definition live_resize (st : State) : Prop :=
  exists id handle element,
    resizingElement st = Some (id, handle) /\
    find_element st id = Some element.


(** [el] with another font size. *)
Definition with_fontSize (v : number) (el : LabelElement) : LabelElement :=
  {| el_id := el_id el; el_type := el_type el; el_label := el_label el;
     el_x := el_x el; el_y := el_y el; el_width := el_width el;
     el_height := el_height el; el_fontSize := v; el_color := el_color el;
     el_value := el_value el |}.

(** ** The preview as the specification words it *)

(** The millimetre-to-pixel conversion: 96 px per inch. *)
Definition spec_canvasPixel (mm : number) : number :=
  (mm * num 96 / Fin 25.4)%num.

(** A length as a percentage of a canvas dimension. *)
Definition spec_percent (v canvasPixel : number) : number :=
  (v / canvasPixel * num 100)%num.

(** An element of a copy, placed by percentages of the label. *)
Definition spec_placed (cfg : LabelConfig) (el : LabelElement)
  (pe : PreviewElement) : Prop :=
  pe_left pe = spec_percent (el_x el) (spec_canvasPixel (cfg_width cfg)) /\
  pe_top pe = spec_percent (el_y el) (spec_canvasPixel (cfg_height cfg)) /\
  pe_width pe =
    spec_percent (el_width el) (spec_canvasPixel (cfg_width cfg)) /\
  pe_height pe =
    spec_percent (el_height el) (spec_canvasPixel (cfg_height cfg)).

(** The box of an element of a copy as the specification places it. *)
Definition spec_box (cfg : LabelConfig) (el : LabelElement)
  : CssLength * CssLength * CssLength * CssLength :=
  (Percent (spec_percent (el_x el) (spec_canvasPixel (cfg_width cfg))),
   Percent (spec_percent (el_y el) (spec_canvasPixel (cfg_height cfg))),
   Percent (spec_percent (el_width el) (spec_canvasPixel (cfg_width cfg))),
   Percent (spec_percent (el_height el) (spec_canvasPixel (cfg_height cfg)))).

(** ** Texts with a numeric prefix *)

(** A decimal digit, and a digit of radix 16. *)
Definition is_digit (c : ascii) : bool :=
  let n := nat_of_ascii c in (48 <=? n)%nat && (n <=? 57)%nat.

Definition is_hex_digit (c : ascii) : bool :=
  let n := nat_of_ascii c in
  is_digit c || ((97 <=? n)%nat && (n <=? 102)%nat)
  || ((65 <=? n)%nat && (n <=? 70)%nat).

(** What is left of a text once its leading white space and one sign are
    taken off. *)
Definition unsigned_part (s : string) : string :=
  snd (split_sign (trimStart s)).

Definition starts_with_digit (s : string) : bool :=
  match s with
  | String c _ => is_digit c
  | EmptyString => false
  end.

Definition starts_with_hex_digit (s : string) : bool :=
  match s with
  | String c _ => is_hex_digit c
  | EmptyString => false
  end.

(** The text begins with an integer: after white space and a sign comes a
    digit, and a [0x] or [0X] in front is followed by a digit of radix
    16. *)
Definition starts_integer (s : string) : bool :=
  match unsigned_part s with
  | String c rest =>
      if (c =? "0")%char
         && match rest with
            | String x _ => (x =? "x")%char || (x =? "X")%char
            | EmptyString => false
            end
      then match rest with
           | String _ digits => starts_with_hex_digit digits
           | EmptyString => false
           end
      else is_digit c
  | EmptyString => false
  end.

(** The text begins with a decimal literal: after white space and a sign
    comes [Infinity], a digit, or a point and a digit. *)
Definition starts_decimal (s : string) : bool :=
  prefix "Infinity" (unsigned_part s)
  || match unsigned_part s with
     | String c rest =>
         is_digit c || ((c =? ".")%char && starts_with_digit rest)
     | EmptyString => false
     end.


(** ** Merging *)

(** A field after a merge: the value given, or else the old one. *)
Definition field_merged {A : Type} (given : option A) (old new : A) : Prop :=
  match given with
  | Some v => new = v
  | None => new = old
  end.

(** [new] is [old] with the fields of [updates] merged in, field by
    field. *)
Definition merged (old : LabelElement) (updates : PartialElement)
  (new : LabelElement) : Prop :=
  field_merged (p_id updates) (el_id old) (el_id new) /\
  field_merged (p_type updates) (el_type old) (el_type new) /\
  field_merged (p_label updates) (el_label old) (el_label new) /\
  field_merged (p_x updates) (el_x old) (el_x new) /\
  field_merged (p_y updates) (el_y old) (el_y new) /\
  field_merged (p_width updates) (el_width old) (el_width new) /\
  field_merged (p_height updates) (el_height old) (el_height new) /\
  field_merged (p_fontSize updates) (el_fontSize old) (el_fontSize new) /\
  field_merged (p_color updates) (el_color old) (el_color new) /\
  field_merged (p_value updates) (el_value old) (el_value new).

(** ** Statements as the specification words them *)

(** A drag pointer-move puts the dragged element [el], at position [i] of
    the store, at the pointer minus half its size, clamped at 0. *)
Definition drag_recentres (st : State) (e : MouseEvent) : Prop :=
  forall (i : nat) (el : LabelElement),
    truthy (draggedElement st) = Some (el_id el) ->
    find_element st (el_id el) = Some el ->
    nth_error (elements st) i = Some el ->
    exists el',
      nth_error (elements (step st (MouseMove e))) i = Some el' /\
      (el_x el' == Math_max (num 0) (pointerX e - el_width el / num 2))%num /\
      (el_y el' == Math_max (num 0) (pointerY e - el_height el / num 2))%num.

(** A pointer-move with a stale dragged or resizing id changes nothing. *)
Definition stale_id_is_noop (st : State) (e : MouseEvent) : Prop :=
  stale_drag st \/ stale_resize st -> step st (MouseMove e) = st.

(** Removing an id no element has changes neither the elements nor the
    selection. *)
Definition remove_absent_is_noop (st : State) (id : string) : Prop :=
  find_element st id = None ->
  elements (store_step st (Remove id)) = elements st /\
  selectedElement (store_step st (Remove id)) = selectedElement st.

(** A south-west resize pointer-move with the pointer at x = 200 puts the
    element being resized, at x = 10 and 100 wide, at x = 80 with a width
    of 30. *)
Definition southwest_example (st : State) (e : MouseEvent) : Prop :=
  forall (i : nat) (el : LabelElement),
    resizingElement st = Some (el_id el, "sw") ->
    find_element st (el_id el) = Some el ->
    nth_error (elements st) i = Some el ->
    (el_x el == num 10)%num -> (el_width el == num 100)%num ->
    (pointerX e == num 200)%num ->
    exists el',
      nth_error (elements (step st (MouseMove e))) i = Some el' /\
      (el_x el' == num 80)%num /\ (el_width el' == num 30)%num.

(** The preview renders as many copies as the quantity says. *)
Definition preview_shows_quantity_copies (st : State) : Prop :=
  exists copies,
    preview st = Some copies /\
    (num (Z.of_nat (List.length copies)) == cfg_quantity (labelConfig st))%num.

(** All ids of the store differ, whatever the history. *)
Definition ids_always_distinct (ops : list StoreOp) : Prop :=
  NoDup (ids (store_run initialState ops)).


(** ** Concrete states and events *)

Definition pointer_at (px py : Z) : MouseEvent :=
  {| clientX := num px; clientY := num py;
     rect_left := num 0; rect_top := num 0 |}.

(** One text element, pressed on its body and then on its south-east
    handle before any release. *)
Definition drag_and_resize_state : State :=
  run initialState
    [ ClickAdd text 1000;
      MouseDownElement "text-1000";
      MouseDownHandle "text-1000" "se" ].

(** Two elements; the one being resized is deleted and the other is then
    pressed on its body, still before any release. *)
Definition drag_and_stale_resize_state : State :=
  run initialState
    [ ClickAdd text 1000;
      ClickAdd price 2000;
      MouseDownHandle "price-2000" "se";
      ClickDelete "price-2000";
      MouseDownElement "text-1000" ].

(** The empty store with a selection that no element carries. *)
Definition stale_selection_state : State :=
  commit initialState [setSelectedElement (Some "text-1000")].

(** The store with one text element, selected. *)
Definition one_text_state : State :=
  run initialState [ClickAdd text 1000].

(** A south-west resize of the text element in progress. *)
Definition sw_resize_state : State :=
  run initialState
    [ ClickAdd text 1000; MouseDownHandle "text-1000" "sw" ].

(** A drag of the text element in progress. *)
Definition drag_state : State :=
  run initialState
    [ ClickAdd text 1000; MouseDownElement "text-1000" ].

(** The resize of an element that has been deleted since. *)
Definition stale_resize_state : State :=
  run initialState
    [ ClickAdd text 1000; MouseDownHandle "text-1000" "se";
      ClickDelete "text-1000" ].

(** Two elements; the price is pressed on its body and deleted, then the
    text is selected on its card and pressed on its south-west handle, all
    before any release. *)
Definition stale_drag_and_resize_state : State :=
  run initialState
    [ ClickAdd text 1000;
      ClickAdd price 2000;
      MouseDownElement "price-2000";
      ClickDelete "price-2000";
      ClickCard "text-1000";
      MouseDownHandle "text-1000" "sw" ].

(** The element of the resize examples: x = 10, y = 10, 100 by 30. *)
Definition sample_element : LabelElement := newElement text 1000.

(** ** The earlier revision of the drag handler

    The revision of the file whose elements have no size moves the dragged
    element by a fixed offset and does not look the element up. *)
Module FixedOffset.

Definition handleMouseMove (st : State) (e : MouseEvent) : list SetCall :=
  match truthy (draggedElement st) with
  | None => []
  | Some d =>
      let x := (clientX e - rect_left e - num 20)%num in
      let y := (clientY e - rect_top e - num 10)%num in
      updateElement st d
        {| p_id := None; p_type := None; p_label := None;
           p_x := Some (Math_max (num 0) x);
           p_y := Some (Math_max (num 0) y);
           p_width := None; p_height := None; p_fontSize := None;
           p_color := None; p_value := None |}
  end.

End FixedOffset.

(** ** The resize geometry in double precision

    The numbers of the program are IEEE 754 doubles.  [Double] is the
    [switch] of [handleMouseMove] once more, over binary64 floats, for the
    statements that depend on the rounding of [+] and [-]. *)
Module Double.

(** [Math.max] and [Math.min]: [NaN] when an argument is, and [-0] below
    [+0]. *)
Definition Math_max (a b : float) : float :=
  if (PrimFloat.is_nan a || PrimFloat.is_nan b)%bool then PrimFloat.nan
  else if (a <? b)%float then b
  else if (b <? a)%float then a
  else if (a =? 0)%float then (a + b)%float
  else a.

Definition Math_min (a b : float) : float :=
  if (PrimFloat.is_nan a || PrimFloat.is_nan b)%bool then PrimFloat.nan
  else if (a <? b)%float then a
  else if (b <? a)%float then b
  else if (a =? 0)%float then (- (- a + - b))%float
  else a.

(** The geometry of an element. *)
Record Box : Type := {
  x : float;
  y : float;
  width : float;
  height : float
}.

Record Geometry : Type := {
  newWidth : float;
  newHeight : float;
  newX : float;
  newY : float
}.

Definition resizeGeometry (element : Box) (handle : string)
  (mouseX mouseY : float) : Geometry :=
  let x := x element in
  let y := y element in
  let width := width element in
  let height := height element in
  if (handle =? "se")%string then
    {| newWidth := Math_max 30 (mouseX - x);
       newHeight := Math_max 20 (mouseY - y);
       newX := x;
       newY := y |}
  else if (handle =? "sw")%string then
    {| newWidth := Math_max 30 (x + width - mouseX);
       newHeight := Math_max 20 (mouseY - y);
       newX := Math_min mouseX (x + width - 30);
       newY := y |}
  else if (handle =? "ne")%string then
    {| newWidth := Math_max 30 (mouseX - x);
       newHeight := Math_max 20 (y + height - mouseY);
       newX := x;
       newY := Math_min mouseY (y + height - 20) |}
  else if (handle =? "nw")%string then
    {| newWidth := Math_max 30 (x + width - mouseX);
       newHeight := Math_max 20 (y + height - mouseY);
       newX := Math_min mouseX (x + width - 30);
       newY := Math_min mouseY (y + height - 20) |}
  else
    {| newWidth := width; newHeight := height; newX := x; newY := y |}.

(** The element after a resize pointer-move: [clientX - rect.left] and
    [clientY - rect.top] are the pointer. *)
Definition resized (element : Box) (handle : string)
  (clientX clientY rect_left rect_top : float) : Box :=
  let g := resizeGeometry element handle
             (clientX - rect_left) (clientY - rect_top) in
  {| x := newX g; y := newY g; width := newWidth g; height := newHeight g |}.

(** [a === b] *)
Definition same (a b : float) : Prop := (a =? b)%float = true.

(** The edge opposite to [handle] is where it was, in doubles. *)
Definition anchored (handle : string) (old new : Box) : Prop :=
  (handle = "se" -> same (x new) (x old) /\ same (y new) (y old)) /\
  (handle = "sw" ->
     same (x new + width new) (x old + width old) /\ same (y new) (y old)) /\
  (handle = "ne" ->
     same (y new + height new) (y old + height old) /\
     same (x new) (x old)) /\
  (handle = "nw" ->
     same (x new + width new) (x old + width old) /\
     same (y new + height new) (y old + height old)).

(** The coordinates [handle] does not recompute are the old ones. *)
Definition untouched (handle : string) (old new : Box) : Prop :=
  (handle = "se" -> x new = x old /\ y new = y old) /\
  (handle = "sw" -> y new = y old) /\
  (handle = "ne" -> x new = x old).

End Double.

(** The element of the resize examples in doubles, and a canvas whose left
    edge is at 57.8 px. *)
Definition sample_box : Double.Box :=
  {| Double.x := 10; Double.y := 10;
     Double.width := 100; Double.height := 30 |}.

Definition canvas_left : float := (578 / 10)%float.

(** ** Rulers, element list and canvas *)

Definition Math_ceil (a : number) : number :=
  match a with
  | Fin q => Fin (inject_Z (Qceiling q))
  | other => other
  end.

(** A tick of a ruler: a long one with the millimetre written under it, a
    medium one or a short one. *)
Inductive TickKind : Type :=
  | Major (mm : nat)
  | Mid
  | Minor.

Record Tick : Type := {
  tick_key : nat;
  tick_position : number;   (* px, from the start of the ruler *)
  tick_kind : TickKind
}.

(** The body of the [map] of a ruler, at index [i]. *)
Definition rulerTick (i : nat) : Tick :=
  let mm := num (Z.of_nat i) in
  let pixelPos := mmToPx mm in
  let isMajor := n_strict_eqb (nrem mm (num 10)) (num 0) in
  let isMid := n_strict_eqb (nrem mm (num 5)) (num 0) in
  {| tick_key := i;
     tick_position := pixelPos;
     tick_kind := if isMajor then Major i else if isMid then Mid else Minor |}.

(** [Array.from({ length: Math.ceil(size) + 1 }).map(...)], for a label
    dimension [size] in mm. *)
Definition ruler (size : number) : option (list Tick) :=
  option_map (map rulerTick) (Array_from_length (Math_ceil size + num 1)).

Definition horizontalRuler (st : State) : option (list Tick) :=
  ruler (cfg_width (labelConfig st)).

Definition verticalRuler (st : State) : option (list Tick) :=
  ruler (cfg_height (labelConfig st)).

(** A card of the element list of the side panel. *)
Record Card : Type := {
  card_key : string;
  card_highlighted : bool;
  card_icon : ElementType;
  card_label : string
}.

Definition elementList (st : State) : list Card :=
  map (fun element =>
         {| card_key := el_id element;
            card_highlighted := is_selected st (el_id element);
            card_icon := el_type element;
            card_label := el_label element |})
      (elements st).

(** [elements.length === 0]: the list and the canvas show a placeholder. *)
Definition placeholderShown (st : State) : bool :=
  (List.length (elements st) =? 0)%nat.

(** An element on the edit canvas: its style in px, its content, and the
    handles it shows. *)
Record CanvasElement : Type := {
  ce_key : string;
  ce_ring : bool;
  ce_left : number;
  ce_top : number;
  ce_width : number;
  ce_height : number;
  ce_fontSize : number;
  ce_color : string;
  ce_framed : bool;
  ce_content : string;
  ce_handles : list string
}.

Definition canvasElement (st : State) (element : LabelElement)
  : CanvasElement :=
  {| ce_key := el_id element;
     ce_ring := is_selected st (el_id element);
     ce_left := el_x element;
     ce_top := el_y element;
     ce_width := el_width element;
     ce_height := el_height element;
     ce_fontSize := el_fontSize element;
     ce_color := el_color element;
     ce_framed := ElementType_eqb (el_type element) barcode;
     ce_content := el_value element;
     ce_handles :=
       if is_selected st (el_id element) then resize_handles else [] |}.

Definition canvasView (st : State) : list CanvasElement :=
  map (canvasElement st) (elements st).

(** ** Further predicates *)

(** A pointer-move whose pointer is over the canvas: at or after its left
    and top edge. *)
Definition pointer_inside (ev : Event) : Prop :=
  match ev with
  | MouseMove e =>
      finite_event e /\
      (num 0 <= pointerX e)%num /\ (num 0 <= pointerY e)%num
  | _ => True
  end.

Definition origin_nonneg (el : LabelElement) : Prop :=
  (num 0 <= el_x el)%num /\ (num 0 <= el_y el)%num.


(** An update with one text field. *)
Definition label_update (t : string) : PartialElement :=
  {| p_id := None; p_type := None; p_label := Some t; p_x := None;
     p_y := None; p_width := None; p_height := None;
     p_fontSize := None; p_color := None; p_value := None |}.

Definition value_update (t : string) : PartialElement :=
  {| p_id := None; p_type := None; p_label := None; p_x := None;
     p_y := None; p_width := None; p_height := None;
     p_fontSize := None; p_color := None; p_value := Some t |}.

Definition color_update (t : string) : PartialElement :=
  {| p_id := None; p_type := None; p_label := None; p_x := None;
     p_y := None; p_width := None; p_height := None;
     p_fontSize := None; p_color := Some t; p_value := None |}.

Definition fontSize_update (v : number) : PartialElement :=
  {| p_id := None; p_type := None; p_label := None; p_x := None;
     p_y := None; p_width := None; p_height := None;
     p_fontSize := Some v; p_color := None; p_value := None |}.

(** An idle state with two elements, for the examples. *)
Definition two_elements_state : State :=
  run initialState [ClickAdd text 1000; ClickAdd barcode 2000; MouseUp].

(** * Properties *)

(** ** Numbers *)

Lemma finite_inv (a : number) : finite a -> exists q, a = Fin q.
Proof. destruct a; simpl; intros H; try contradiction. now exists q. Qed.

Lemma n_le_Fin (p q : Q) : (Fin p <= Fin q)%num <-> p <= q.
Proof. unfold n_le; simpl. apply Qle_bool_iff. Qed.

Lemma Qmax_cases (p q : Q) :
  (p <= q /\ Qmax p q == q) \/ (q <= p /\ Qmax p q == p).
Proof.
  destruct (Q.max_spec p q) as [[H E] | [H E]]; [left | right]; split;
    auto using Qlt_le_weak.
Qed.

Lemma Qmin_cases (p q : Q) :
  (p <= q /\ Qmin p q == p) \/ (q <= p /\ Qmin p q == q).
Proof.
  destruct (Q.min_spec p q) as [[H E] | [H E]]; [left | right]; split;
    auto using Qlt_le_weak.
Qed.

(** Replace the numbers known to be finite by their rationals. *)
Ltac finite_numbers :=
  repeat match goal with
  | H : finite_geometry _ |- _ => destruct H as (? & ? & ? & ?)
  | H : finite_event _ |- _ => destruct H as (? & ? & ? & ?)
  | H : finite ?a |- _ =>
      let q := fresh "q" in
      let E := fresh "E" in
      destruct (finite_inv a H) as [q E]; clear H;
      try rewrite E in *
  end.

(** Split the maxima and minima of a goal on rationals and close it by
    linear arithmetic. *)
Ltac minmax_lra :=
  repeat match goal with
  | |- context [Qmax ?p ?q] =>
      let H := fresh in
      let E := fresh in
      destruct (Qmax_cases p q) as [[H E] | [H E]];
      revert H E; generalize (Qmax p q); intros ? H E
  | |- context [Qmin ?p ?q] =>
      let H := fresh in
      let E := fresh in
      destruct (Qmin_cases p q) as [[H E] | [H E]];
      revert H E; generalize (Qmin p q); intros ? H E
  end;
  lra.

(** ** Committing setter calls *)

Lemma commit_app (st : State) (c1 c2 : list SetCall) :
  commit st (c1 ++ c2) = commit (commit st c1) c2.
Proof. apply fold_left_app. Qed.

Lemma commit_nil (st : State) : commit st [] = st.
Proof. reflexivity. Qed.

(** A second [setElements] replaces the first. *)
Lemma commit_setElements_twice (st : State) (a b : list LabelElement) :
  commit st [setElements a; setElements b] = commit st [setElements b].
Proof. reflexivity. Qed.

(** Setting the elements to what they are changes nothing. *)
Lemma commit_setElements_same (st : State) :
  commit st [setElements (elements st)] = st.
Proof. destruct st; reflexivity. Qed.

(** ** The element store *)

Lemma find_element_In (st : State) (id : string) (el : LabelElement) :
  find_element st id = Some el -> In el (elements st) /\ el_id el = id.
Proof.
  unfold find_element. intros H. apply find_some in H.
  destruct H as [HIn Heq]. split; [assumption | now apply String.eqb_eq].
Qed.

Lemma find_element_None (st : State) (id : string) :
  find_element st id = None <->
  forall el, In el (elements st) -> el_id el <> id.
Proof.
  unfold find_element. split.
  - intros H el HIn Heq.
    pose proof (find_none _ _ H el HIn) as Hf. simpl in Hf.
    apply String.eqb_neq in Hf. contradiction.
  - intros H. induction (elements st) as [|a l IH]; simpl; [reflexivity|].
    destruct (String.eqb_spec (el_id a) id) as [Heq | Hne].
    + exfalso. apply (H a); [now left | assumption].
    + apply IH. intros el HIn. apply H. now right.
Qed.

(** Updating an id that no element carries maps every element to itself. *)
Lemma map_update_absent (l : list LabelElement) (id : string)
  (updates : PartialElement) :
  (forall el, In el l -> el_id el <> id) ->
  map (fun el => if (el_id el =? id)%string then spread el updates else el) l
  = l.
Proof.
  induction l as [|a l IH]; simpl; intros H; [reflexivity|].
  destruct (String.eqb_spec (el_id a) id) as [Heq | Hne].
  - exfalso. apply (H a); [now left | assumption].
  - f_equal. apply IH. intros el HIn. apply H. now right.
Qed.

Lemma filter_delete_absent (l : list LabelElement) (id : string) :
  (forall el, In el l -> el_id el <> id) ->
  filter (fun el => negb (el_id el =? id)%string) l = l.
Proof.
  induction l as [|a l IH]; simpl; intros H; [reflexivity|].
  destruct (String.eqb_spec (el_id a) id) as [Heq | Hne]; simpl.
  - exfalso. apply (H a); [now left | assumption].
  - f_equal. apply IH. intros el HIn. apply H. now right.
Qed.

Lemma Forall_map_update (P : LabelElement -> Prop) (l : list LabelElement)
  (id : string) (updates : PartialElement) :
  Forall P l ->
  (forall el, In el l -> P el -> P (spread el updates)) ->
  Forall P
    (map (fun el => if (el_id el =? id)%string then spread el updates else el)
         l).
Proof.
  intros HP Hs. apply Forall_forall. intros x Hx.
  apply in_map_iff in Hx. destruct Hx as (el & <- & HIn).
  rewrite Forall_forall in HP.
  destruct (el_id el =? id)%string; auto.
Qed.

(** ** The pointer-move handler, case by case *)

(** A pointer-move commits nothing, the drag update alone, or the resize
    update alone. *)
Lemma handleMouseMove_cases (st : State) (e : MouseEvent) :
  step st (MouseMove e) = st
  \/ (exists d element,
        truthy (draggedElement st) = Some d /\
        find_element st d = Some element /\
        ~ live_resize st /\
        step st (MouseMove e)
        = commit st (updateElement st d (dragUpdates element e)))
  \/ (exists id handle element,
        resizingElement st = Some (id, handle) /\
        find_element st id = Some element /\
        ~ stale_drag st /\
        step st (MouseMove e)
        = commit st (updateElement st id (resizeUpdates element handle e))).
Proof.
  unfold step, handler, handleMouseMove, dragBranch, resizeBranch.
  destruct (truthy (draggedElement st)) as [d|] eqn:Hd.
  - destruct (find_element st d) as [element|] eqn:Hf; [|now left].
    destruct (resizingElement st) as [[id handle]|] eqn:Hr.
    + destruct (find_element st id) as [target|] eqn:Ht.
      * right; right. exists id, handle, target. repeat split; auto.
        intros (d' & Hd' & Hnone). congruence.
      * right; left. exists d, element. repeat split; auto.
        intros (id' & h' & t' & Hr' & Ht'). congruence.
    + right; left. exists d, element. repeat split; auto.
      intros (id' & h' & t' & Hr' & Ht'). congruence.
  - destruct (resizingElement st) as [[id handle]|] eqn:Hr; [|now left].
    destruct (find_element st id) as [target|] eqn:Ht; [|now left].
    right; right. exists id, handle, target. repeat split; auto.
    intros (d' & Hd' & Hnone). congruence.
Qed.

(** ** Minimum size on the resize path (C1) *)

(** The four handles, one goal each. *)
Ltac each_handle H :=
  unfold resize_handles in H; simpl in H;
  destruct H as [<- | [<- | [<- | [<- | []]]]].

Lemma resizeGeometry_min_size (element : LabelElement) (handle : string)
  (mouseX mouseY : number) :
  In handle resize_handles ->
  finite_geometry element -> finite mouseX -> finite mouseY ->
  exists w h,
    newWidth (resizeGeometry element handle mouseX mouseY) = Fin w /\
    newHeight (resizeGeometry element handle mouseX mouseY) = Fin h /\
    30 <= w /\ 20 <= h.
Proof.
  intros Hh Hg Hx Hy. unfold resizeGeometry. finite_numbers.
  each_handle Hh; simpl;
    eexists; eexists; (split; [reflexivity|]); (split; [reflexivity|]);
    split; apply Q.le_max_l.
Qed.

(** The geometry of the resize branch is finite when its inputs are. *)
Lemma resizeGeometry_finite (element : LabelElement) (handle : string)
  (mouseX mouseY : number) :
  finite_geometry element -> finite mouseX -> finite mouseY ->
  finite (newWidth (resizeGeometry element handle mouseX mouseY)) /\
  finite (newHeight (resizeGeometry element handle mouseX mouseY)) /\
  finite (newX (resizeGeometry element handle mouseX mouseY)) /\
  finite (newY (resizeGeometry element handle mouseX mouseY)).
Proof.
  intros Hg Hx Hy. unfold resizeGeometry. finite_numbers.
  repeat match goal with
         | |- context [if ?b then _ else _] => destruct b
         end; simpl; auto.
Qed.

(** With a handle that is none of the four the size is left as it is. *)
Lemma resizeGeometry_keeps_min_size (element : LabelElement)
  (handle : string) (mouseX mouseY : number) :
  finite_geometry element -> finite mouseX -> finite mouseY ->
  min_size element ->
  (num 30 <= newWidth (resizeGeometry element handle mouseX mouseY))%num /\
  (num 20 <= newHeight (resizeGeometry element handle mouseX mouseY))%num.
Proof.
  intros Hg Hx Hy [Hw Hh]. unfold resizeGeometry. finite_numbers.
  repeat match goal with
         | |- context [if ?b then _ else _] => destruct b
         end; simpl; split; auto; apply n_le_Fin, Q.le_max_l.
Qed.

Lemma pointer_finite_position (e : MouseEvent) :
  finite_event e -> finite (pointerX e) /\ finite (pointerY e).
Proof.
  intros He. unfold pointerX, pointerY. finite_numbers. simpl. auto.
Qed.

Lemma well_sized_newElement (type : ElementType) (now : Z) :
  well_sized (newElement type now).
Proof. destruct type; repeat split. Qed.

Lemma well_sized_drag (element el : LabelElement) (e : MouseEvent) :
  finite_event e -> well_sized element -> well_sized el ->
  well_sized (spread el (dragUpdates element e)).
Proof.
  intros He [Hge _] [Hg Hm]. split; [|exact Hm].
  destruct Hg as (_ & _ & Hw & Hh). unfold finite_geometry; simpl.
  repeat split; auto; finite_numbers; simpl; exact I.
Qed.

Lemma well_sized_resize (element el : LabelElement) (handle : string)
  (e : MouseEvent) :
  finite_event e -> well_sized element -> well_sized el ->
  well_sized (spread el (resizeUpdates element handle e)).
Proof.
  intros He [Hge Hme] _.
  destruct (pointer_finite_position e He) as [Hx Hy].
  pose proof (resizeGeometry_finite element handle _ _ Hge Hx Hy)
    as (Fw & Fh & Fx & Fy).
  pose proof (resizeGeometry_keeps_min_size element handle _ _ Hge Hx Hy Hme)
    as [Mw Mh].
  unfold well_sized, finite_geometry, min_size; simpl. tauto.
Qed.

(** Every event keeps every element well sized. *)
Lemma step_well_sized (st : State) (ev : Event) :
  pointer_finite ev ->
  Forall well_sized (elements st) ->
  Forall well_sized (elements (step st ev)).
Proof.
  intros Hev Hst.
  destruct ev; try exact Hst.
  - (* add *)
    simpl. apply Forall_app. split; [assumption|].
    constructor; [apply well_sized_newElement | constructor].
  - (* delete *)
    unfold step, handler, deleteElement.
    destruct (is_selected st id); simpl;
      apply Forall_forall; intros x Hx; apply filter_In in Hx;
      rewrite Forall_forall in Hst; now apply Hst.
  - (* pointer move *)
    simpl in Hev.
    destruct (handleMouseMove_cases st e)
      as [-> | [(d & element & _ & Hf & _ & ->)
               | (id & handle & element & _ & Hf & _ & ->)]];
      [assumption | |];
      apply find_element_In in Hf; destruct Hf as [HIn _];
      pose proof Hst as Hall; rewrite Forall_forall in Hall;
      simpl; apply Forall_map_update; auto; intros el _ Hel.
    + apply well_sized_drag; auto.
    + apply well_sized_resize; auto.
  - unfold step, handler, onChange_label.
    destruct (selected st); [|exact Hst].
    simpl. apply Forall_map_update; auto.
  - unfold step, handler, onChange_value.
    destruct (selected st); [|exact Hst].
    simpl. apply Forall_map_update; auto.
  - unfold step, handler, onChange_fontSize.
    destruct (selected st); [|exact Hst].
    simpl. apply Forall_map_update; auto.
  - unfold step, handler, onChange_color.
    destruct (selected st); [|exact Hst].
    simpl. apply Forall_map_update; auto.
Qed.

Lemma run_well_sized (evs : list Event) (st : State) :
  Forall pointer_finite evs ->
  Forall well_sized (elements st) ->
  Forall well_sized (elements (run st evs)).
Proof.
  revert st. induction evs as [|ev evs IH]; intros st Hevs Hst; simpl.
  - assumption.
  - inversion Hevs; subst. apply IH; [assumption|].
    now apply step_well_sized.
Qed.

(** C1. Whatever the element, the handle among se, sw, ne, nw and the
    pointer position, the update of the resize branch assigns a width of at
    least 30 and a height of at least 20.  Hence, from the empty store and
    through any sequence of events, every element has width >= 30 and
    height >= 20. *)
Theorem resize_respects_min_size :
  (forall (element : LabelElement) (handle : string) (e : MouseEvent),
      In handle resize_handles ->
      finite_geometry element -> finite_event e ->
      exists w h,
        p_width (resizeUpdates element handle e) = Some (Fin w) /\
        p_height (resizeUpdates element handle e) = Some (Fin h) /\
        30 <= w /\ 20 <= h)
  /\
  (forall evs : list Event,
      Forall pointer_finite evs ->
      Forall min_size (elements (run initialState evs))).
Proof.
  split.
  - intros element handle e Hh Hg He.
    destruct (pointer_finite_position e He) as [Hx Hy].
    destruct (resizeGeometry_min_size element handle _ _ Hh Hg Hx Hy)
      as (w & h & Ew & Eh & Hw & Hh').
    exists w, h. unfold resizeUpdates; simpl.
    unfold pointerX, pointerY in *. rewrite Ew, Eh. auto.
  - intros evs Hevs.
    assert (H : Forall well_sized (elements (run initialState evs))).
    { apply run_well_sized; [assumption | constructor]. }
    eapply Forall_impl; [|exact H]. now intros el [_ Hm].
Qed.

Lemma resize_respects_min_size_witness :
  (exists w h,
      p_width (resizeUpdates sample_element "sw" (pointer_at 200 60))
      = Some (Fin w) /\
      p_height (resizeUpdates sample_element "sw" (pointer_at 200 60))
      = Some (Fin h) /\
      30 <= w /\ 20 <= h)
  /\ Forall min_size
       (elements
          (run initialState
             [ ClickAdd text 1000; MouseDownHandle "text-1000" "sw";
               MouseMove (pointer_at 200 60); MouseUp ])).
Proof.
  split.
  - apply (proj1 resize_respects_min_size).
    + simpl; auto.
    + repeat split.
    + repeat split.
  - apply (proj2 resize_respects_min_size).
    repeat constructor.
Defined.

(** ** The anchored edge of a resize (C2) *)

Lemma n_eq_refl_finite (a : number) : finite a -> (a == a)%num.
Proof. destruct a; simpl; intros H; try contradiction. reflexivity. Qed.

Lemma resizeGeometry_anchored (element : LabelElement) (handle : string)
  (mouseX mouseY : number) :
  finite_geometry element -> finite mouseX -> finite mouseY ->
  let g := resizeGeometry element handle mouseX mouseY in
  (handle = "se" -> newX g = el_x element /\ newY g = el_y element) /\
  (handle = "sw" ->
     (newX g + newWidth g == el_x element + el_width element)%num /\
     newY g = el_y element) /\
  (handle = "ne" ->
     (newY g + newHeight g == el_y element + el_height element)%num /\
     newX g = el_x element) /\
  (handle = "nw" ->
     (newX g + newWidth g == el_x element + el_width element)%num /\
     (newY g + newHeight g == el_y element + el_height element)%num).
Proof.
  intros Hg Hx Hy g. subst g. unfold resizeGeometry. finite_numbers.
  split; [|split; [|split]]; intros ->; simpl;
    repeat split; try reflexivity; unfold inject_Z; minmax_lra.
Qed.

(** In doubles the right edge of a south-west resize can move: with the
    element at x = 10, 100 wide, the canvas at 57.8 and the pointer at
    [clientX = 8], the new x is -49.8 and the new width 159.8, which add
    up to 110.00000000000001. *)
Lemma anchored_in_doubles_counterexample :
  ~ Double.anchored "sw" sample_box
      (Double.resized sample_box "sw" 8 60 canvas_left 0).
Proof.
  intros (_ & H & _). destruct (H eq_refl) as [Hedge _].
  vm_compute in Hedge. discriminate Hedge.
Qed.

(** The right edge after that move is one unit in the last place to the
    right of 110. *)
Example southwest_right_edge_in_doubles :
  let new := Double.resized sample_box "sw" 8 60 canvas_left 0 in
  (Double.x new + Double.width new)%float = (110 + 0x1p-46)%float.
Proof. vm_compute. reflexivity. Qed.

(** In doubles too, the coordinates a handle does not recompute are
    assigned as they were. *)
Lemma untouched_in_doubles (box : Double.Box) (handle : string)
  (clientX clientY rect_left rect_top : float) :
  Double.untouched handle box
    (Double.resized box handle clientX clientY rect_left rect_top).
Proof.
  unfold Double.untouched, Double.resized, Double.resizeGeometry.
  split; [|split]; intros ->; simpl; auto.
Qed.

(** C2, amended. One resize pointer-move leaves an element at the position
    of the element being resized, and in exact arithmetic the edge opposite
    to the handle is where it was, the clamp to 30 by 20 included: for sw
    the right edge and y, for ne the bottom edge and x, for nw the right
    and the bottom edge, for se x and y.  In the doubles of the program
    the coordinates the handle does not recompute (y for sw, x for ne, both
    for se) are exactly the old ones; the sums [newX + newWidth] and
    [newY + newHeight] are the old edges up to the rounding of [+] and
    [-] only.  [el] is the element being resized, at position [i] of the
    store. *)
Theorem resize_keeps_opposite_edge (st : State) (e : MouseEvent)
  (handle : string) (el : LabelElement) (i : nat) :
  resizingElement st = Some (el_id el, handle) ->
  find_element st (el_id el) = Some el ->
  nth_error (elements st) i = Some el ->
  finite_geometry el -> finite_event e ->
  (exists el',
      nth_error (elements (step st (MouseMove e))) i = Some el' /\
      anchored handle el el') /\
  (forall (box : Double.Box) (cx cy left top : float),
      Double.untouched handle box (Double.resized box handle cx cy left top)).
Proof.
  intros Hr Hf Hi Hg He. split; [|intros; apply untouched_in_doubles].
  destruct (handleMouseMove_cases st e)
    as [Hsame | [(d & element & _ & _ & Hlive & _)
                | (id & h & element & Hr' & Hf' & _ & Hstep)]].
  - exists el. rewrite Hsame. split; [exact Hi|].
    destruct Hg as (Fx & Fy & Fw & Fh). unfold anchored.
    split; [|split; [|split]]; intros _; repeat split;
      apply n_eq_refl_finite; finite_numbers; simpl; exact I.
  - exfalso. apply Hlive. now exists (el_id el), handle, el.
  - rewrite Hr in Hr'. injection Hr' as <- <-.
    rewrite Hf in Hf'. injection Hf' as <-.
    exists (spread el (resizeUpdates el handle e)). split.
    + rewrite Hstep. simpl. rewrite nth_error_map, Hi. simpl.
      now rewrite String.eqb_refl.
    + destruct (pointer_finite_position e He) as [Hx Hy].
      exact (resizeGeometry_anchored el handle _ _ Hg Hx Hy).
Qed.

Lemma resize_keeps_opposite_edge_witness :
  exists el',
    nth_error (elements (step sw_resize_state (MouseMove (pointer_at 200 60))))
              0
    = Some el' /\
    anchored "sw" sample_element el'.
Proof.
  apply (resize_keeps_opposite_edge sw_resize_state (pointer_at 200 60)
           "sw" sample_element 0%nat).
  - reflexivity.
  - reflexivity.
  - reflexivity.
  - repeat split.
  - repeat split.
Defined.

(** ** The south-west example (C9) *)

(** The record the south-west case builds for an element with x = 10 and
    width = 100, the pointer at x = 200: x = 80 and width = 30. *)
Lemma resizeUpdates_southwest (element : LabelElement) (e : MouseEvent) :
  (el_x element == num 10)%num ->
  (el_width element == num 100)%num ->
  (pointerX e == num 200)%num ->
  exists x w,
    p_x (resizeUpdates element "sw" e) = Some x /\
    p_width (resizeUpdates element "sw" e) = Some w /\
    (x == num 80)%num /\ (w == num 30)%num.
Proof.
  unfold resizeUpdates, resizeGeometry, pointerX. simpl.
  intros Hx Hw Hp.
  destruct (el_x element) as [| | |qx]; try contradiction.
  destruct (el_width element) as [| | |qw]; try contradiction.
  destruct (clientX e - rect_left e)%num as [| | |qp]; try contradiction.
  simpl in *. eexists; eexists.
  split; [reflexivity|]. split; [reflexivity|].
  unfold n_eq, num, inject_Z in *. split; minmax_lra.
Qed.

(** The same in the store: the text element of [sw_resize_state] is at
    x = 10 and 100 wide. *)
Example southwest_resize_in_store :
  exists el',
    elements (step sw_resize_state (MouseMove (pointer_at 200 60))) = [el'] /\
    (el_x el' == num 80)%num /\ (el_width el' == num 30)%num /\
    (el_y el' == num 10)%num /\ (el_height el' == num 50)%num.
Proof. eexists. split; [reflexivity|]. repeat split. Qed.

(** When the drag branch does not return, the resize of an element of the
    store is what the move commits. *)
Lemma handleMouseMove_resize_applied (st : State) (e : MouseEvent)
  (id handle : string) (element : LabelElement) :
  resizingElement st = Some (id, handle) ->
  find_element st id = Some element ->
  ~ stale_drag st ->
  step st (MouseMove e)
  = commit st (updateElement st id (resizeUpdates element handle e)).
Proof.
  intros Hr Hf Hd.
  unfold step, handler, handleMouseMove, dragBranch, resizeBranch.
  rewrite Hr, Hf.
  destruct (truthy (draggedElement st)) as [d|] eqn:Ed; [|reflexivity].
  destruct (find_element st d) eqn:Hfd; [reflexivity|].
  exfalso. apply Hd. now exists d.
Qed.

(** Without a resize of an element of the store, the drag of one is what
    the move commits. *)
Lemma handleMouseMove_drag_applied (st : State) (e : MouseEvent)
  (d : string) (element : LabelElement) :
  truthy (draggedElement st) = Some d ->
  find_element st d = Some element ->
  ~ live_resize st ->
  step st (MouseMove e)
  = commit st (updateElement st d (dragUpdates element e)).
Proof.
  intros Hd Hf Hr.
  unfold step, handler, handleMouseMove, dragBranch, resizeBranch.
  rewrite Hd, Hf.
  destruct (resizingElement st) as [[id handle]|] eqn:Er; [|reflexivity].
  destruct (find_element st id) as [target|] eqn:Ht; [|reflexivity].
  exfalso. apply Hr. now exists id, handle, target.
Qed.

(** The state with a stale drag and a south-west resize is met by the
    component, and a pointer-move leaves it as it is. *)
Example stale_drag_and_resize_state_fired :
  fired initialState
    [ ClickAdd text 1000;
      ClickAdd price 2000;
      MouseDownElement "price-2000";
      ClickDelete "price-2000";
      ClickCard "text-1000";
      MouseDownHandle "text-1000" "sw" ].
Proof.
  simpl. repeat split; eauto 6.
Qed.

Example stale_drag_and_resize_move :
  stale_drag stale_drag_and_resize_state /\
  step stale_drag_and_resize_state (MouseMove (pointer_at 200 60))
  = stale_drag_and_resize_state.
Proof. split; [now exists "price-2000" | reflexivity]. Qed.

(** With the id of a deleted element still recorded as dragged, the
    handler returns before the resize branch: the text element stays at
    x = 10, 100 wide. *)
Lemma southwest_example_counterexample :
  ~ southwest_example stale_drag_and_resize_state (pointer_at 200 60).
Proof.
  intros H.
  destruct (H 0%nat sample_element) as (el' & Hn & Hx & _);
    try reflexivity.
  vm_compute in Hn. injection Hn as <-. vm_compute in Hx. discriminate Hx.
Qed.

(** C9, amended. A south-west resize of an element with x = 10 and
    width = 100 (right edge at 110), the pointer at x = 200, while no drag
    of a deleted element is recorded: the pointer-move leaves the element,
    at its position [i] of the store, with x = 80 and width = 30, and with
    the y it had. *)
Theorem southwest_resize_past_right_edge (st : State) (e : MouseEvent)
  (el : LabelElement) (i : nat) :
  resizingElement st = Some (el_id el, "sw") ->
  find_element st (el_id el) = Some el ->
  nth_error (elements st) i = Some el ->
  ~ stale_drag st ->
  (el_x el == num 10)%num -> (el_width el == num 100)%num ->
  (pointerX e == num 200)%num ->
  exists el',
    nth_error (elements (step st (MouseMove e))) i = Some el' /\
    (el_x el' == num 80)%num /\ (el_width el' == num 30)%num /\
    el_y el' = el_y el.
Proof.
  intros Hr Hf Hi Hd Hx Hw Hp.
  rewrite (handleMouseMove_resize_applied st e _ _ el Hr Hf Hd).
  destruct (resizeUpdates_southwest el e Hx Hw Hp)
    as (x & w & Ex & Ew & Hx' & Hw').
  exists (spread el (resizeUpdates el "sw" e)). split.
  - simpl. rewrite nth_error_map, Hi. simpl. now rewrite String.eqb_refl.
  - cbn [spread el_x el_width el_y]. rewrite Ex, Ew. simpl.
    repeat split; assumption.
Qed.

Lemma southwest_resize_past_right_edge_witness :
  exists el',
    nth_error (elements (step sw_resize_state (MouseMove (pointer_at 200 60))))
              0
    = Some el' /\
    (el_x el' == num 80)%num /\ (el_width el' == num 30)%num /\
    el_y el' = num 10.
Proof.
  apply (southwest_resize_past_right_edge sw_resize_state (pointer_at 200 60)
           sample_element 0%nat); try reflexivity.
  intros (d & Hd & _). discriminate Hd.
Defined.

(** The same numbers in doubles: 10 + 100 - 200 and 110 - 30 are exact. *)
Example southwest_resize_in_doubles (y height mouseY : float) :
  let g := Double.resizeGeometry
             {| Double.x := 10; Double.y := y;
                Double.width := 100; Double.height := height |}
             "sw" 200 mouseY in
  Double.newX g = 80%float /\ Double.newWidth g = 30%float.
Proof. split; reflexivity. Qed.

(** ** The drag move (C5) *)

Lemma Math_max_zero (a : number) :
  finite a ->
  (num 0 <= Math_max (num 0) a)%num /\
  ((num 0 <= a)%num -> (Math_max (num 0) a == a)%num).
Proof.
  intros H. finite_numbers. simpl. split.
  - apply Qle_bool_iff, Q.le_max_l.
  - unfold n_le; simpl. intros Hq. apply Qle_bool_iff in Hq.
    unfold inject_Z in *. minmax_lra.
Qed.

(** While the dragged element is also being resized from a handle, the
    move leaves it where it was: the resize update is the one committed. *)
Lemma drag_recentres_counterexample :
  ~ drag_recentres drag_and_resize_state (pointer_at 200 150).
Proof.
  intros H.
  destruct (H 0%nat sample_element eq_refl eq_refl eq_refl)
    as (el' & Hn & Hx & _).
  vm_compute in Hn. injection Hn as <-.
  vm_compute in Hx. discriminate Hx.
Qed.

(** What that move leaves: the element has not moved, and has been resized
    from (10, 10) to the pointer. *)
Example drag_and_resize_move :
  exists el',
    elements (step drag_and_resize_state (MouseMove (pointer_at 200 150)))
    = [el'] /\
    (el_x el' == num 10)%num /\ (el_y el' == num 10)%num /\
    (el_width el' == num 190)%num /\ (el_height el' == num 140)%num.
Proof. eexists. split; [reflexivity|]. repeat split. Qed.

(** C5, amended. While no resize of an element of the store is in
    progress, one pointer-move of a drag puts the dragged element at the
    canvas-relative pointer position minus half its current width and
    height, each coordinate clamped at 0 and at nothing else; its other
    fields, the other elements, the selection and the interaction state are
    as before. *)
Theorem drag_move_recentres (st : State) (e : MouseEvent) (i : nat)
  (el : LabelElement) :
  truthy (draggedElement st) = Some (el_id el) ->
  find_element st (el_id el) = Some el ->
  nth_error (elements st) i = Some el ->
  ~ live_resize st ->
  finite_geometry el -> finite_event e ->
  let x := (pointerX e - el_width el / num 2)%num in
  let y := (pointerY e - el_height el / num 2)%num in
  let st' := step st (MouseMove e) in
  (exists el',
      nth_error (elements st') i = Some el' /\
      moved_to (Math_max (num 0) x) (Math_max (num 0) y) el el') /\
  (num 0 <= Math_max (num 0) x)%num /\
  (num 0 <= Math_max (num 0) y)%num /\
  ((num 0 <= x)%num -> (Math_max (num 0) x == x)%num) /\
  ((num 0 <= y)%num -> (Math_max (num 0) y == y)%num) /\
  (forall j other,
      nth_error (elements st) j = Some other ->
      el_id other <> el_id el ->
      nth_error (elements st') j = Some other) /\
  selectedElement st' = selectedElement st /\
  draggedElement st' = draggedElement st /\
  resizingElement st' = resizingElement st /\
  labelConfig st' = labelConfig st /\
  showPreview st' = showPreview st.
Proof.
  intros Hd Hf Hi Hr Hg He x y st'.
  assert (Hstep : st' = commit st (updateElement st (el_id el)
                                     (dragUpdates el e)))
    by (now apply handleMouseMove_drag_applied).
  assert (Fx : finite x /\ finite y).
  { subst x y. unfold pointerX, pointerY. finite_numbers. simpl. auto. }
  destruct Fx as [Fx Fy].
  destruct (Math_max_zero x Fx) as [Px Qx].
  destruct (Math_max_zero y Fy) as [Py Qy].
  rewrite Hstep. simpl.
  repeat split; auto.
  - exists (spread el (dragUpdates el e)). split.
    + rewrite nth_error_map, Hi. simpl. now rewrite String.eqb_refl.
    + reflexivity.
  - intros j other Hj Hne.
    rewrite nth_error_map, Hj. simpl.
    apply String.eqb_neq in Hne. now rewrite Hne.
Qed.

Lemma drag_move_recentres_witness :
  exists el',
    nth_error (elements (step drag_state (MouseMove (pointer_at 200 150))))
              0%nat = Some el' /\
    (el_x el' == num 150)%num /\ (el_y el' == num 135)%num.
Proof.
  destruct (drag_move_recentres drag_state (pointer_at 200 150) 0%nat
              sample_element) as ((el' & Hn & Hm) & _).
  - reflexivity.
  - reflexivity.
  - reflexivity.
  - intros (id & handle & element & Hr & _). discriminate Hr.
  - repeat split.
  - repeat split.
  - exists el'. split; [exact Hn|]. rewrite Hm. split; reflexivity.
Defined.

(** The earlier revision: the dragged id is not looked up and every element
    carrying it goes to the pointer minus (20, 10), clamped at 0. *)
Lemma fixed_offset_drag (st : State) (e : MouseEvent) (d : string)
  (i : nat) (el : LabelElement) :
  truthy (draggedElement st) = Some d ->
  nth_error (elements st) i = Some el ->
  el_id el = d ->
  exists el',
    nth_error (elements (commit st (FixedOffset.handleMouseMove st e))) i
    = Some el' /\
    moved_to (Math_max (num 0) (pointerX e - num 20))
             (Math_max (num 0) (pointerY e - num 10)) el el'.
Proof.
  intros Hd Hi Hid. unfold FixedOffset.handleMouseMove. rewrite Hd. simpl.
  rewrite nth_error_map, Hi. simpl.
  apply String.eqb_eq in Hid. rewrite Hid.
  eexists. split; reflexivity.
Qed.

(** ** Stale ids in a pointer-move (C10) *)

(** With a drag of an element of the store and a stale resize recorded
    together, the move is not a no-op: the dragged element moves. *)
Lemma stale_id_is_noop_counterexample :
  ~ stale_id_is_noop drag_and_stale_resize_state (pointer_at 200 150).
Proof.
  intros H.
  assert (Hstale : stale_resize drag_and_stale_resize_state).
  { exists "price-2000", "se". split; reflexivity. }
  specialize (H (or_intror Hstale)).
  apply (f_equal (fun st => map el_x (elements st))) in H.
  vm_compute in H. discriminate H.
Qed.

Example drag_and_stale_resize_move :
  map el_x (elements drag_and_stale_resize_state) = [num 10] /\
  exists x,
    map el_x
      (elements
         (step drag_and_stale_resize_state (MouseMove (pointer_at 200 150))))
    = [x] /\ (x == num 150)%num.
Proof. split; [reflexivity|]. eexists. split; reflexivity. Qed.

(** C10, amended. A pointer-move leaves the whole state as it is when the
    dragged id is stale, and when the resizing id is stale while no drag is
    recorded.  When the resizing id is stale while an element of the store
    is being dragged, the drag update alone is committed: the selection,
    the interaction state and the configuration are as before. *)
Theorem stale_id_pointer_move (st : State) (e : MouseEvent) :
  (stale_drag st -> step st (MouseMove e) = st) /\
  (stale_resize st -> truthy (draggedElement st) = None ->
   step st (MouseMove e) = st) /\
  (stale_resize st ->
   forall d element,
     truthy (draggedElement st) = Some d ->
     find_element st d = Some element ->
     let st' := step st (MouseMove e) in
     elements st'
     = map (fun el =>
              if (el_id el =? d)%string
              then spread el (dragUpdates element e) else el)
           (elements st) /\
     selectedElement st' = selectedElement st /\
     draggedElement st' = draggedElement st /\
     resizingElement st' = resizingElement st /\
     labelConfig st' = labelConfig st /\
     showPreview st' = showPreview st).
Proof.
  unfold step, handler, handleMouseMove, dragBranch, resizeBranch.
  split; [|split].
  - intros (d & Hd & Hf). now rewrite Hd, Hf.
  - intros (id & handle & Hr & Hf) Hd. now rewrite Hd, Hr, Hf.
  - intros (id & handle & Hr & Hf) d element Hd Hfd. cbv zeta.
    rewrite Hd, Hfd, Hr, Hf. simpl. repeat split; auto.
Qed.

Lemma stale_id_pointer_move_witness :
  step stale_resize_state (MouseMove (pointer_at 200 150))
  = stale_resize_state.
Proof.
  apply (proj1 (proj2 (stale_id_pointer_move stale_resize_state
                         (pointer_at 200 150)))).
  - exists "text-1000", "se". split; reflexivity.
  - reflexivity.
Defined.

(** ** Removing an element *)

(** On a state the component does not reach, with a selection that no
    element carries, removing that id clears the selection although no
    element has it. *)
Example remove_stale_selection :
  ~ remove_absent_is_noop stale_selection_state "text-1000".
Proof.
  intros H. destruct (H eq_refl) as [_ Hsel]. discriminate Hsel.
Qed.

Lemma is_selected_true (st : State) (id : string) :
  is_selected st id = true <-> selectedElement st = Some id.
Proof.
  unfold is_selected. destruct (selectedElement st) as [s|].
  - rewrite String.eqb_eq. split; congruence.
  - split; discriminate.
Qed.

(** Removing an id that no element has and that is not selected changes
    nothing. *)
Lemma store_step_Remove_absent (st : State) (id : string) :
  find_element st id = None -> selectedElement st <> Some id ->
  store_step st (Remove id) = st.
Proof.
  intros Hnone Hsel. unfold store_step, deleteElement.
  destruct (is_selected st id) eqn:E.
  - apply is_selected_true in E. contradiction.
  - simpl. rewrite filter_delete_absent.
    + destruct st; reflexivity.
    + now apply find_element_None.
Qed.

(** [deleteElement] on any state, reached by the component or not: it
    keeps exactly the elements whose id is not [id], in their order; it
    clears the selection if and only if the selection is [id], and leaves
    it as it is otherwise; nothing else changes. *)
Lemma remove_deletes_and_deselects (st : State) (id : string) :
  let st' := store_step st (Remove id) in
  elements st'
  = filter (fun el => negb (el_id el =? id)%string) (elements st) /\
  (selectedElement st = Some id -> selectedElement st' = None) /\
  (selectedElement st <> Some id ->
   selectedElement st' = selectedElement st) /\
  draggedElement st' = draggedElement st /\
  resizingElement st' = resizingElement st /\
  labelConfig st' = labelConfig st /\
  showPreview st' = showPreview st /\
  (find_element st id = None -> elements st' = elements st) /\
  (find_element st id = None -> selectedElement st <> Some id -> st' = st).
Proof.
  pose proof (store_step_Remove_absent st id) as Habsent.
  unfold store_step, deleteElement in *.
  destruct (is_selected st id) eqn:Hsel; simpl.
  - apply is_selected_true in Hsel.
    repeat split; auto; try congruence.
    intros Hnone. apply filter_delete_absent.
    now apply find_element_None.
  - assert (Hne : selectedElement st <> Some id).
    { intros Heq. apply is_selected_true in Heq. congruence. }
    repeat split; auto; try congruence.
    intros Hnone. apply filter_delete_absent.
    now apply find_element_None.
Qed.

(** ** Updating an element (C7) *)

Lemma spread_merged (el : LabelElement) (updates : PartialElement) :
  merged el updates (spread el updates).
Proof.
  unfold merged, field_merged, spread; simpl.
  destruct updates as [i t l x y w h f c v]; simpl.
  destruct i, t, l, x, y, w, h, f, c, v; simpl; repeat split.
Qed.

(** C7. [update(id, partialFields)] merges the given fields, and only
    them, into every element whose id is [id]; the other elements, their
    order, the selection, the interaction state and the configuration are
    as before.  When no element has that id the state is unchanged.  The
    operation is a total function: it cannot throw. *)
Theorem update_merges_given_fields (st : State) (id : string)
  (updates : PartialElement) :
  let st' := store_step st (Update id updates) in
  List.length (elements st') = List.length (elements st) /\
  (forall i el,
      nth_error (elements st) i = Some el ->
      exists el',
        nth_error (elements st') i = Some el' /\
        (el_id el = id -> merged el updates el') /\
        (el_id el <> id -> el' = el)) /\
  selectedElement st' = selectedElement st /\
  draggedElement st' = draggedElement st /\
  resizingElement st' = resizingElement st /\
  labelConfig st' = labelConfig st /\
  showPreview st' = showPreview st /\
  (find_element st id = None -> st' = st).
Proof.
  unfold store_step, updateElement; simpl.
  split; [apply length_map|].
  split; [|repeat split].
  - intros i el Hi. rewrite nth_error_map, Hi. simpl.
    destruct (String.eqb_spec (el_id el) id) as [Heq | Hne];
      eexists; (split; [reflexivity|]); split; intros H;
      try contradiction; try reflexivity.
    apply spread_merged.
  - intros Hnone. rewrite map_update_absent.
    + destruct st; reflexivity.
    + now apply find_element_None.
Qed.

Lemma update_merges_given_fields_witness :
  store_step one_text_state (Update "price-2000" no_updates)
  = one_text_state.
Proof.
  apply (update_merges_given_fields one_text_state "price-2000" no_updates).
  reflexivity.
Defined.

(** ** Identity of the elements (C3) *)

Section Subsequence.

Context {A : Type}.

Lemma subsequence_refl (l : list A) : subsequence l l.
Proof. induction l; constructor; assumption. Qed.

Lemma subsequence_nil_l (l : list A) : subsequence [] l.
Proof. induction l; constructor; assumption. Qed.

Lemma subsequence_trans (l m n : list A) :
  subsequence l m -> subsequence m n -> subsequence l n.
Proof.
  intros Hlm Hmn. revert l Hlm.
  induction Hmn as [| a m n Hmn IH | a m n Hmn IH]; intros l Hlm.
  - assumption.
  - constructor. now apply IH.
  - inversion Hlm; subst.
    + constructor. now apply IH.
    + apply subsequence_keep. now apply IH.
Qed.

Lemma subsequence_app (l1 m1 l2 m2 : list A) :
  subsequence l1 m1 -> subsequence l2 m2 ->
  subsequence (l1 ++ l2)%list (m1 ++ m2)%list.
Proof.
  intros H1 H2. induction H1; simpl; try constructor; assumption.
Qed.

Lemma subsequence_In (l m : list A) (a : A) :
  subsequence l m -> In a l -> In a m.
Proof.
  intros H. induction H; simpl; intros Ha; auto.
  destruct Ha as [-> | Ha]; auto.
Qed.

Lemma subsequence_NoDup (l m : list A) :
  subsequence l m -> NoDup m -> NoDup l.
Proof.
  intros H. induction H; intros Hm.
  - constructor.
  - inversion Hm; subst. auto.
  - inversion Hm as [| ? ? Hnot Hrest]; subst. constructor.
    + intros Ha. apply Hnot. eapply subsequence_In; eassumption.
    + auto.
Qed.

End Subsequence.

Lemma subsequence_filter_ids (keep : LabelElement -> bool)
  (l : list LabelElement) :
  subsequence (map el_id (filter keep l)) (map el_id l).
Proof.
  induction l as [|a l IH]; simpl.
  - constructor.
  - destruct (keep a); simpl; constructor; assumption.
Qed.

Lemma to_int_proper (n : Z) :
  Z.to_int n <> Decimal.Pos Decimal.Nil /\
  Z.to_int n <> Decimal.Neg Decimal.Nil.
Proof.
  destruct n; simpl; split; try discriminate;
    intros [= H]; now apply DecimalPos.Unsigned.to_uint_nonnil in H.
Qed.

Lemma string_of_integer_inj (n m : Z) :
  string_of_integer n = string_of_integer m -> n = m.
Proof.
  unfold string_of_integer. intros H.
  apply (f_equal NilZero.int_of_string) in H.
  destruct (to_int_proper n) as [Hn1 Hn2].
  destruct (to_int_proper m) as [Hm1 Hm2].
  rewrite !NilZero.isi in H by assumption.
  injection H as H. now apply DecimalZ.to_int_inj.
Qed.

(** The id tells the type and the clock value it was made from. *)
Lemma element_id_inj (t t' : ElementType) (n n' : Z) :
  element_id t n = element_id t' n' -> t = t' /\ n = n'.
Proof.
  unfold element_id.
  destruct t, t'; simpl; intros H; try discriminate H;
    injection H as H; split; try reflexivity;
    now apply string_of_integer_inj.
Qed.

Lemma issued_ids_NoDup (ops : list StoreOp) :
  NoDup (additions ops) -> NoDup (issued_ids ops).
Proof.
  unfold issued_ids. induction (additions ops) as [|[t n] l IH]; simpl.
  - constructor.
  - intros H. inversion H as [| ? ? Hnot Hrest]; subst. constructor.
    + intros Hin. apply in_map_iff in Hin.
      destruct Hin as ([t' n'] & Heq & Hin). simpl in Heq.
      apply element_id_inj in Heq. destruct Heq as [-> ->]. contradiction.
    + auto.
Qed.

Lemma store_step_Add (st : State) (type : ElementType) (now : Z) :
  elements (store_step st (Add type now))
  = (elements st ++ [newElement type now])%list.
Proof. reflexivity. Qed.

Lemma store_step_Update_ids (st : State) (id : string)
  (updates : PartialElement) :
  p_id updates = None ->
  ids (store_step st (Update id updates)) = ids st.
Proof.
  intros Hid. unfold ids, store_step, updateElement; simpl.
  rewrite map_map. apply map_ext. intros el.
  destruct (el_id el =? id)%string; [|reflexivity].
  simpl. now rewrite Hid.
Qed.

Lemma store_step_Remove (st : State) (id : string) :
  elements (store_step st (Remove id))
  = filter (fun el => negb (el_id el =? id)%string) (elements st).
Proof.
  unfold store_step, deleteElement. now destruct (is_selected st id).
Qed.

(** The ids in the store are, in order, some of the ids handed out. *)
Lemma store_run_ids (ops : list StoreOp) (st : State) (issued : list string) :
  updates_keep_id ops ->
  subsequence (ids st) issued ->
  subsequence (ids (store_run st ops)) (issued ++ issued_ids ops)%list.
Proof.
  revert st issued.
  induction ops as [|op ops IH]; intros st issued Hkeep Hsub; simpl.
  - unfold issued_ids; simpl. now rewrite app_nil_r.
  - assert (Hrest : updates_keep_id ops).
    { intros id u Hin. apply (Hkeep id u). now right. }
    destruct op as [type now | id updates | id].
    + unfold issued_ids; simpl.
      change (element_id type now :: map _ (additions ops))
        with ([element_id type now] ++ issued_ids ops)%list.
      rewrite app_assoc. apply IH; [assumption|].
      unfold ids. rewrite store_step_Add, map_app.
      apply subsequence_app; [assumption | apply subsequence_refl].
    + apply IH; [assumption|].
      rewrite store_step_Update_ids; [assumption|].
      apply (Hkeep id updates). now left.
    + apply IH; [assumption|].
      unfold ids. rewrite store_step_Remove.
      eapply subsequence_trans; [apply subsequence_filter_ids | exact Hsub].
Qed.

(** Two additions of the same type at the same clock value carry the same
    id. *)
Lemma ids_always_distinct_counterexample :
  ~ ids_always_distinct [Add text 1000; Add text 1000].
Proof.
  unfold ids_always_distinct. intros H.
  inversion H as [| ? ? Hnot _]; subst.
  apply Hnot. now left.
Qed.

(** An update that carries an [id] key can make two ids equal as well. *)
Example update_can_duplicate_ids :
  ids (store_run initialState
         [ Add text 1000; Add text 2000;
           Update "text-2000"
             {| p_id := Some "text-1000"; p_type := None; p_label := None;
                p_x := None; p_y := None; p_width := None; p_height := None;
                p_fontSize := None; p_color := None; p_value := None |} ])
  = ["text-1000"; "text-1000"].
Proof. reflexivity. Qed.

(** C3, amended. Over every sequence of add, update and remove operations
    in which no two additions of the same type read the same clock value
    and no update carries an [id] key: the ids handed out are pairwise
    distinct, so none is handed out again after a removal; the ids in the
    store are, in order, some of the ids handed out, and are pairwise
    distinct.  An addition appends one element at the end, an update keeps
    the ids and their order, a removal keeps the other elements in their
    order. *)
Theorem ids_distinct_while_clock_advances (ops : list StoreOp) :
  NoDup (additions ops) ->
  updates_keep_id ops ->
  NoDup (issued_ids ops) /\
  subsequence (ids (store_run initialState ops)) (issued_ids ops) /\
  NoDup (ids (store_run initialState ops)) /\
  (forall st type now,
      elements (store_step st (Add type now))
      = (elements st ++ [newElement type now])%list) /\
  (forall st id updates,
      p_id updates = None ->
      ids (store_step st (Update id updates)) = ids st) /\
  (forall st id,
      elements (store_step st (Remove id))
      = filter (fun el => negb (el_id el =? id)%string) (elements st)).
Proof.
  intros Hclock Hkeep.
  assert (Hissued : NoDup (issued_ids ops)) by now apply issued_ids_NoDup.
  assert (Hsub : subsequence (ids (store_run initialState ops))
                             (issued_ids ops)).
  { apply (store_run_ids ops initialState []); [assumption | constructor]. }
  split; [assumption|]. split; [assumption|].
  split; [eapply subsequence_NoDup; eassumption|].
  split; [exact store_step_Add|].
  split; [exact store_step_Update_ids | exact store_step_Remove].
Qed.

Lemma ids_distinct_while_clock_advances_witness :
  NoDup (ids (store_run initialState
                [ Add text 1000; Add text 1001; Remove "text-1000";
                  Update "text-1001" no_updates; Add price 1001 ])).
Proof.
  apply ids_distinct_while_clock_advances.
  - repeat constructor; simpl; intuition discriminate.
  - intros id updates [H | [H | [H | [H | [H | []]]]]];
      try discriminate H. now injection H as _ <-.
Defined.

(** ** The numeric inputs (C4) *)



(** The same for the three inputs of the label configuration. *)
Example empty_config_inputs_store_NaN :
  cfg_width (labelConfig (step initialState (ChangeWidth ""))) = NaN /\
  cfg_height (labelConfig (step initialState (ChangeHeight ""))) = NaN /\
  cfg_quantity (labelConfig (step initialState (ChangeQuantity ""))) = NaN.
Proof. repeat split. Qed.

Lemma spread_fontSize (el : LabelElement) (v : number) :
  spread el
    {| p_id := None; p_type := None; p_label := None; p_x := None;
       p_y := None; p_width := None; p_height := None;
       p_fontSize := Some v; p_color := None; p_value := None |}
  = with_fontSize v el.
Proof. reflexivity. Qed.

(** [parseInt] gives [NaN] or an integer. *)
Lemma parseInt_NaN_or_integer (s : string) :
  parseInt s = NaN \/ exists z, parseInt s = num z.
Proof.
  unfold parseInt.
  destruct (split_sign (trimStart s)) as [sign s1].
  match goal with
  | |- context [let (R, s2) := ?p in _] => destruct p as [R s2]
  end.
  destruct (fst (span_digits R s2)); [now left | right; eauto].
Qed.

Example parse_examples :
  parseInt "12px" = num 12 /\ parseInt " -7" = num (-7) /\
  parseInt "0x1F" = num 31 /\ parseInt "3.7" = num 3 /\
  parseInt "abc" = NaN /\ parseInt "-" = NaN /\
  (parseFloat "12.5" == Fin 12.5)%num /\ (parseFloat "1e2" == num 100)%num /\
  (parseFloat ".5x" == Fin 0.5)%num /\ parseFloat "abc" = NaN /\
  parseFloat "." = NaN.
Proof. repeat split. Qed.

(** *** Reading the decimal writing of an integer *)

(** Evaluate the reading of the one digit in front. *)
Ltac read_digit :=
  cbn [NilEmpty.string_of_uint span_digits];
  match goal with
  | |- context [digit_value ?c] =>
      let v := eval vm_compute in (digit_value c) in
      change (digit_value c) with v
  end;
  cbv iota beta;
  match goal with
  | |- context [(?k <? 10)%Z] =>
      let v := eval vm_compute in (k <? 10)%Z in
      change (k <? 10)%Z with v
  end;
  cbv iota beta.

(** The digits [span_digits] reads off the decimal writing of [d], folded
    from an accumulator, are what [Pos.of_uint_acc] computes. *)
Lemma digits_of_uint_acc (d : Decimal.uint) (acc : positive) :
  fold_left (fun a k => (a * 10 + k)%Z)
            (fst (span_digits 10 (NilEmpty.string_of_uint d))) (Z.pos acc)
  = Z.pos (Pos.of_uint_acc d acc).
Proof.
  revert acc. induction d; intros acc; [reflexivity|..];
    read_digit;
    destruct (span_digits 10 (NilEmpty.string_of_uint d)) as [ds tail];
    cbn [fst fold_left Pos.of_uint_acc] in *;
    rewrite <- IHd; f_equal; lia.
Qed.

Lemma digits_of_uint (d : Decimal.uint) :
  digits_value 10 (fst (span_digits 10 (NilEmpty.string_of_uint d)))
  = Z.of_N (Pos.of_uint d).
Proof.
  unfold digits_value. induction d; [reflexivity|..];
    read_digit;
    pose proof (digits_of_uint_acc d) as Hacc;
    destruct (span_digits 10 (NilEmpty.string_of_uint d)) as [ds tail];
    cbn [fst fold_left Pos.of_uint Z.of_N] in *;
    first [exact IHd | apply Hacc].
Qed.

(** The decimal writing of a number with at least one digit is read by
    [parseInt] as the value of its digits. *)
Lemma parseInt_of_digits (d : Decimal.uint) :
  d <> Decimal.Nil ->
  parseInt (NilEmpty.string_of_uint d)
  = num (1 * digits_value 10
               (fst (span_digits 10 (NilEmpty.string_of_uint d)))) /\
  parseInt (String "-" (NilEmpty.string_of_uint d))
  = num (-1 * digits_value 10
                (fst (span_digits 10 (NilEmpty.string_of_uint d)))).
Proof.
  intros Hd.
  destruct d as [|d|d|d|d|d|d|d|d|d|d]; [contradiction|..];
    destruct d; unfold parseInt; simpl;
    repeat match goal with
           | |- context [span_digits 10 ?s] =>
               destruct (span_digits 10 s) as [ds tail]
           end; split; reflexivity.
Qed.

(** The decimal writing of a number is made of digits only. *)
Lemma span_digits_of_uint (d : Decimal.uint) :
  snd (span_digits 10 (NilEmpty.string_of_uint d)) = "".
Proof.
  induction d; [reflexivity|..];
    read_digit;
    destruct (span_digits 10 (NilEmpty.string_of_uint d)) as [ds tail];
    exact IHd.
Qed.

(** It has a digit when the number has one. *)
Lemma fst_span_digits_of_uint (d : Decimal.uint) :
  d <> Decimal.Nil ->
  fst (span_digits 10 (NilEmpty.string_of_uint d)) <> [].
Proof.
  intros Hd. destruct d; [contradiction|..];
    read_digit;
    destruct (span_digits 10 (NilEmpty.string_of_uint d)) as [ds tail];
    discriminate.
Qed.

(** [parseFloat] reads it as the value of its digits, with no fraction and
    no exponent. *)
Lemma parseFloat_of_digits (d : Decimal.uint) :
  d <> Decimal.Nil ->
  parseFloat (NilEmpty.string_of_uint d)
  = Fin (inject_Z (1 * digits_value 10
                         (fst (span_digits 10 (NilEmpty.string_of_uint d))))
         * 10 ^ (0 - 0)) /\
  parseFloat (String "-" (NilEmpty.string_of_uint d))
  = Fin (inject_Z (-1 * digits_value 10
                          (fst (span_digits 10 (NilEmpty.string_of_uint d))))
         * 10 ^ (0 - 0)).
Proof.
  intros Hd.
  pose proof (span_digits_of_uint d) as Htail.
  pose proof (fst_span_digits_of_uint d Hd) as Hdigits.
  assert (Hbody : forall sign : Z,
             (if prefix "Infinity" (NilEmpty.string_of_uint d)
              then (if (sign <? 0)%Z then NInf else PInf)
              else
                let (int_digits, s2) :=
                  span_digits 10 (NilEmpty.string_of_uint d) in
                let (frac_digits, s3) :=
                  match s2 with
                  | String "." rest => span_digits 10 rest
                  | _ => ([], s2)
                  end in
                match (int_digits ++ frac_digits)%list with
                | [] => NaN
                | ds =>
                    Fin (inject_Z (sign * digits_value 10 ds)
                         * 10 ^ (exponent_part s3
                                 - Z.of_nat (List.length frac_digits)))
                end)
             = Fin (inject_Z
                      (sign * digits_value 10
                                (fst (span_digits 10
                                        (NilEmpty.string_of_uint d))))
                    * 10 ^ (0 - 0))).
  { intros sign.
    assert (Hp : prefix "Infinity" (NilEmpty.string_of_uint d) = false)
      by (destruct d; reflexivity || contradiction).
    rewrite Hp.
    destruct (span_digits 10 (NilEmpty.string_of_uint d)) as [ds tail].
    cbn [fst snd] in *. subst tail. cbv beta iota.
    rewrite app_nil_r. destruct ds; [contradiction|reflexivity]. }
  split.
  - rewrite <- (Hbody 1%Z). destruct d; try contradiction; reflexivity.
  - rewrite <- (Hbody (-1)%Z). reflexivity.
Qed.

(** Both read the decimal writing of an integer as that integer. *)
Lemma parse_shown_integer (n : Z) :
  parseInt (string_of_integer n) = num n /\
  (parseFloat (string_of_integer n) == num n)%num.
Proof.
  unfold string_of_integer. destruct n as [|p|p]; [split; reflexivity| |];
    simpl Z.to_int; unfold NilZero.string_of_int, NilZero.string_of_uint;
    pose proof (DecimalPos.Unsigned.to_uint_nonnil p) as Hnil;
    destruct (parseInt_of_digits (Pos.to_uint p) Hnil) as [Hpos Hneg];
    destruct (parseFloat_of_digits (Pos.to_uint p) Hnil) as [Fpos Fneg];
    pose proof (digits_of_uint (Pos.to_uint p)) as Hval;
    rewrite DecimalPos.Unsigned.of_to in Hval;
    destruct (Pos.to_uint p) eqn:E; try contradiction;
    rewrite ?Hpos, ?Hneg, ?Fpos, ?Fneg, Hval;
    (split; [reflexivity|]); unfold n_eq, num; simpl Z.sub;
    change (10 ^ 0) with 1; rewrite Qmult_1_r; reflexivity.
Qed.

(** *** Texts that give [NaN] *)











(** Texts with and without a numeric prefix. *)
Example numeric_prefixes :
  starts_integer "12px" = true /\ starts_integer " -7" = true /\
  starts_integer "0x1F" = true /\ starts_integer "0x" = false /\
  starts_integer "abc" = false /\ starts_integer "-" = false /\
  starts_integer ".5" = false /\
  starts_decimal "12.5" = true /\ starts_decimal ".5x" = true /\
  starts_decimal "-Infinity" = true /\ starts_decimal "." = false /\
  starts_decimal "abc" = false /\ starts_decimal "e5" = false.
Proof. repeat split. Qed.

(** ** The preview (C6) *)

Lemma Qtrunc_integer (q : Q) (z : Z) : q == inject_Z z -> Qtrunc q = z.
Proof.
  intros H. unfold Qtrunc.
  destruct (Qle_bool 0 q).
  - rewrite (Qfloor_comp _ _ H). apply Qfloor_Z.
  - rewrite (Qceiling_comp _ _ H). apply Qceiling_Z.
Qed.

Lemma Array_from_length_integer (len : number) (n : Z) :
  (len == num n)%num -> (0 <= n <= 2 ^ 32 - 1)%Z ->
  Array_from_length len = Some (seq 0 (Z.to_nat n)).
Proof.
  intros Hlen Hn. destruct len as [| | |q]; try contradiction.
  simpl in Hlen. unfold Array_from_length, ToLength.
  rewrite (Qtrunc_integer q n Hlen).
  change (2 ^ 53 - 1)%Z with 9007199254740991%Z.
  change (2 ^ 32 - 1)%Z with 4294967295%Z in *.
  replace (Z.min (Z.max 0 n) 9007199254740991) with n by lia.
  destruct (Z.leb_spec n 4294967295); [reflexivity | lia].
Qed.

Lemma previewElement_placed (st : State) (el : LabelElement) :
  spec_placed (labelConfig st) el (previewElement st el).
Proof. repeat split. Qed.

Lemma Qtrunc_below_one (q : Q) : q < 1 -> (Qtrunc q <= 0)%Z.
Proof.
  intros Hq. unfold Qtrunc.
  destruct (Qle_bool 0 q) eqn:E.
  - pose proof (Qfloor_le q) as Hf.
    assert (H : inject_Z (Qfloor q) < inject_Z 1) by (unfold inject_Z at 2; lra).
    rewrite <- Zlt_Qlt in H. lia.
  - assert (Hneg : q <= 0).
    { apply Qnot_lt_le. intros Hpos.
      apply Qlt_le_weak, Qle_bool_iff in Hpos. congruence. }
    change 0%Z with (Qceiling 0). now apply Qceiling_resp_le.
Qed.

(** Typing -3 into the quantity input gives a preview without any copy. *)
Lemma preview_shows_quantity_copies_counterexample :
  ~ preview_shows_quantity_copies (step initialState (ChangeQuantity "-3")).
Proof.
  intros (copies & Hp & Hlen). vm_compute in Hp. injection Hp as <-.
  vm_compute in Hlen. discriminate Hlen.
Qed.

(** The other quantities the input stores for which the count is off: the
    empty text gives no copy, and 4294967296 makes [Array.from] throw. *)
Example quantities_without_preview :
  cfg_quantity (labelConfig (step initialState (ChangeQuantity ""))) = NaN /\
  preview (step initialState (ChangeQuantity "")) = Some [] /\
  cfg_quantity (labelConfig (step initialState (ChangeQuantity "4294967296")))
  = num 4294967296 /\
  preview (step initialState (ChangeQuantity "4294967296")) = None.
Proof. repeat split. Qed.

(** The boxes of a copy are the boxes of the specification, in the order
    of the elements. *)
Lemma preview_children (st : State) (index : nat) :
  map boxStyle (pc_children (previewCopy st index))
  = map (spec_box (labelConfig st)) (elements st).
Proof.
  unfold previewCopy; cbn [pc_children]. rewrite map_map.
  apply map_ext. intros el. reflexivity.
Qed.

(** Truncation is monotone. *)
Lemma Qtrunc_large (q : Q) (z : Z) : inject_Z z <= q -> (z <= Qtrunc q)%Z.
Proof.
  intros H. unfold Qtrunc. destruct (Qle_bool 0 q).
  - rewrite <- (Qfloor_Z z). now apply Qfloor_resp_le.
  - rewrite <- (Qceiling_Z z). now apply Qceiling_resp_le.
Qed.

(** C6, amended. The edit canvas is [width * 96 / 25.4] px by
    [height * 96 / 25.4] px.  With a quantity that is an integer from 0 to
    2^32 - 1, the preview is made of exactly that many copies of the label;
    each is [width] mm by [height] mm and holds, for every element in
    order, a box whose left, top, width and height are the percentages
    [(v / canvasPixel) * 100] of those canvas dimensions.  With a quantity
    that is [NaN] or below 1 the preview has no copy, and with a quantity
    of 2^32 or more it is not rendered: [Array.from] throws. *)
Theorem preview_renders_quantity_copies (st : State) :
  canvasStyle st
  = (Px (spec_canvasPixel (cfg_width (labelConfig st))),
     Px (spec_canvasPixel (cfg_height (labelConfig st)))) /\
  (forall quantity : Z,
      (cfg_quantity (labelConfig st) == num quantity)%num ->
      (0 <= quantity <= 2 ^ 32 - 1)%Z ->
      exists copies,
        preview st = Some copies /\
        List.length copies = Z.to_nat quantity /\
        forall copy, In copy copies ->
          copyStyle copy
          = (Mm (cfg_width (labelConfig st)),
             Mm (cfg_height (labelConfig st))) /\
          map boxStyle (pc_children copy)
          = map (spec_box (labelConfig st)) (elements st)) /\
  (cfg_quantity (labelConfig st) = NaN \/
   (exists q, cfg_quantity (labelConfig st) = Fin q /\ q < 1) ->
   preview st = Some []) /\
  ((num (2 ^ 32) <= cfg_quantity (labelConfig st))%num ->
   preview st = None).
Proof.
  split; [reflexivity|]. split; [|split].
  - intros quantity Hq Hrange. unfold preview.
    rewrite (Array_from_length_integer _ quantity Hq Hrange). simpl.
    eexists. split; [reflexivity|]. split.
    + now rewrite length_map, length_seq.
    + intros copy Hin. apply in_map_iff in Hin.
      destruct Hin as (index & <- & _).
      split; [reflexivity | apply preview_children].
  - intros [Hq | (q & Hq & Hlt)]; unfold preview; rewrite Hq.
    + reflexivity.
    + unfold Array_from_length, ToLength.
      pose proof (Qtrunc_below_one q Hlt) as Ht.
      replace (Z.max 0 (Qtrunc q)) with 0%Z by lia. reflexivity.
  - intros Hbig. unfold preview.
    destruct (cfg_quantity (labelConfig st)) as [| | |q];
      try discriminate Hbig; [reflexivity|].
    apply Qle_bool_iff in Hbig.
    pose proof (Qtrunc_large q (2 ^ 32) Hbig) as Ht.
    unfold Array_from_length, ToLength.
    change (2 ^ 53 - 1)%Z with 9007199254740991%Z.
    change (2 ^ 32 - 1)%Z with 4294967295%Z.
    change (2 ^ 32)%Z with 4294967296%Z in Ht.
    destruct (Z.leb_spec (Z.min (Z.max 0 (Qtrunc q)) 9007199254740991)
                         4294967295); [lia | reflexivity].
Qed.

Lemma preview_renders_quantity_copies_witness :
  exists copies,
    preview one_text_state = Some copies /\ List.length copies = 10%nat.
Proof.
  destruct (preview_renders_quantity_copies one_text_state)
    as (_ & Hcopies & _).
  destruct (Hcopies 10%Z) as (copies & Hp & Hlen & _).
  - reflexivity.
  - split; [lia | vm_compute; discriminate].
  - exists copies. split; [exact Hp | exact Hlen].
Defined.

(** ** The selection in the running component (C8) *)

Lemma map_update_ids (l : list LabelElement) (id : string)
  (updates : PartialElement) :
  p_id updates = None ->
  map el_id
    (map (fun el => if (el_id el =? id)%string then spread el updates else el)
         l)
  = map el_id l.
Proof.
  intros Hid. rewrite map_map. apply map_ext. intros el.
  destruct (el_id el =? id)%string; [|reflexivity].
  simpl. now rewrite Hid.
Qed.

Lemma has_id_iff (st : State) (s : string) :
  (exists el, In el (elements st) /\ el_id el = s) <-> In s (ids st).
Proof.
  unfold ids. rewrite in_map_iff. split; intros (el & H1 & H2);
    exists el; auto.
Qed.

(** The events that only update elements keep the ids and the selection. *)
Lemma selection_valid_same_ids (st st' : State) :
  ids st' = ids st -> selectedElement st' = selectedElement st ->
  selection_valid st -> selection_valid st'.
Proof.
  unfold selection_valid. intros Hids Hsel. rewrite Hsel.
  destruct (selectedElement st); [|auto].
  now rewrite !has_id_iff, Hids.
Qed.

Lemma step_MouseMove_ids (st : State) (e : MouseEvent) :
  ids (step st (MouseMove e)) = ids st /\
  selectedElement (step st (MouseMove e)) = selectedElement st.
Proof.
  destruct (handleMouseMove_cases st e)
    as [-> | [(d & element & _ & _ & _ & ->)
             | (id & handle & element & _ & _ & _ & ->)]];
    unfold ids; simpl; auto using map_update_ids.
Qed.

Lemma step_selection_valid (st : State) (ev : Event) :
  rendered st ev -> selection_valid st -> selection_valid (step st ev).
Proof.
  intros Hev Hst.
  destruct ev; simpl in Hev; try exact Hst; try exact Hev.
  - (* add *)
    unfold selection_valid; simpl.
    exists (newElement type now). split; [|reflexivity].
    apply in_or_app. right. now left.
  - (* delete *)
    unfold step, handler, deleteElement.
    destruct (is_selected st id) eqn:Hsel; simpl; [exact I|].
    unfold selection_valid in *; simpl.
    destruct (selectedElement st) as [s|] eqn:Es; [|exact I].
    destruct Hst as (el & HIn & Hid). exists el. split; [|assumption].
    apply filter_In. split; [assumption|].
    unfold is_selected in Hsel. rewrite Es in Hsel.
    rewrite Hid. apply negb_true_iff. exact Hsel.
  - (* press on a handle *)
    unfold selection_valid; simpl. tauto.
  - (* pointer move *)
    destruct (step_MouseMove_ids st e) as [Hids Hsel].
    eapply selection_valid_same_ids; eassumption.
  - unfold step, handler, onChange_label.
    destruct (selected st); [|exact Hst].
    eapply selection_valid_same_ids; [| |exact Hst]; [|reflexivity].
    unfold ids; simpl. now apply map_update_ids.
  - unfold step, handler, onChange_value.
    destruct (selected st); [|exact Hst].
    eapply selection_valid_same_ids; [| |exact Hst]; [|reflexivity].
    unfold ids; simpl. now apply map_update_ids.
  - unfold step, handler, onChange_fontSize.
    destruct (selected st); [|exact Hst].
    eapply selection_valid_same_ids; [| |exact Hst]; [|reflexivity].
    unfold ids; simpl. now apply map_update_ids.
  - unfold step, handler, onChange_color.
    destruct (selected st); [|exact Hst].
    eapply selection_valid_same_ids; [| |exact Hst]; [|reflexivity].
    unfold ids; simpl. now apply map_update_ids.
Qed.

(** In the running component the selection always names an element. *)
Lemma run_selection_valid (evs : list Event) (st : State) :
  fired st evs -> selection_valid st -> selection_valid (run st evs).
Proof.
  revert st. induction evs as [|ev evs IH]; intros st Hfired Hst; simpl.
  - assumption.
  - destruct Hfired as [Hev Hrest]. apply IH; [assumption|].
    now apply step_selection_valid.
Qed.

(** With a selection that names an element, removing an id that no element
    has changes nothing. *)
Lemma store_step_Remove_absent_valid (st : State) (id : string) :
  selection_valid st -> find_element st id = None ->
  store_step st (Remove id) = st.
Proof.
  intros Hvalid Hnone.
  apply store_step_Remove_absent; [assumption|].
  unfold selection_valid in Hvalid. intros Hsel. rewrite Hsel in Hvalid.
  destruct Hvalid as (el & HIn & Hid).
  rewrite find_element_None in Hnone. now apply (Hnone el).
Qed.

(** C8. In every state the component reaches, [remove(id)] deletes exactly
    the elements with that id and keeps the others in their order; it
    clears the selection if and only if the selection is that id, which
    then is the id of an element that is removed, and leaves the selection
    as it is otherwise; the recorded gesture, the configuration and the
    preview flag are untouched; and when no element has that id the whole
    state, element list and selection included, is unchanged. *)
Theorem remove_in_the_component (evs : list Event) (id : string) :
  fired initialState evs ->
  let st := run initialState evs in
  let st' := store_step st (Remove id) in
  elements st'
  = filter (fun el => negb (el_id el =? id)%string) (elements st) /\
  (selectedElement st = Some id ->
   selectedElement st' = None /\ find_element st id <> None) /\
  (selectedElement st <> Some id ->
   selectedElement st' = selectedElement st) /\
  draggedElement st' = draggedElement st /\
  resizingElement st' = resizingElement st /\
  labelConfig st' = labelConfig st /\
  showPreview st' = showPreview st /\
  (find_element st id = None -> st' = st).
Proof.
  intros Hfired. cbv zeta.
  pose proof (run_selection_valid evs initialState Hfired I) as Hvalid.
  set (st := run initialState evs) in *.
  pose proof (store_step_Remove_absent_valid st id Hvalid) as Habsent.
  unfold store_step, deleteElement in *.
  destruct (is_selected st id) eqn:Hsel; simpl.
  - apply is_selected_true in Hsel.
    split; [reflexivity|]. split; [|split].
    + intros _. split; [reflexivity|].
      unfold selection_valid in Hvalid. rewrite Hsel in Hvalid.
      destruct Hvalid as (el & HIn & Hid).
      rewrite find_element_None. intros Hnone. now apply (Hnone el).
    + intros Hne. contradiction.
    + repeat split; auto.
  - assert (Hne : selectedElement st <> Some id).
    { intros Heq. apply is_selected_true in Heq. congruence. }
    split; [reflexivity|]. split; [|split].
    + intros Heq. contradiction.
    + reflexivity.
    + repeat split; auto.
Qed.

Lemma remove_in_the_component_witness :
  selectedElement (store_step one_text_state (Remove "text-1000")) = None /\
  store_step one_text_state (Remove "price-2000") = one_text_state.
Proof.
  assert (Hfired : fired initialState [ClickAdd text 1000])
    by (simpl; auto).
  pose proof (remove_in_the_component [ClickAdd text 1000] "text-1000" Hfired)
    as (_ & Hclear & _).
  pose proof (remove_in_the_component [ClickAdd text 1000] "price-2000" Hfired)
    as (_ & _ & _ & _ & _ & _ & _ & Hnoop).
  split.
  - apply Hclear. reflexivity.
  - apply Hnoop. reflexivity.
Defined.

(** The states of the counterexamples of C5 and C10 are met by the
    component: each press is on something the render shows. *)
Example drag_and_resize_state_fired :
  fired initialState
    [ ClickAdd text 1000;
      MouseDownElement "text-1000";
      MouseDownHandle "text-1000" "se" ].
Proof.
  simpl. repeat split; eauto 6.
Qed.

Example drag_and_stale_resize_state_fired :
  fired initialState
    [ ClickAdd text 1000;
      ClickAdd price 2000;
      MouseDownHandle "price-2000" "se";
      ClickDelete "price-2000";
      MouseDownElement "text-1000" ].
Proof.
  simpl. repeat split; eauto 6.
Qed.

(** * Further properties of the component *)

(** ** Adding and removing *)

Lemma find_app_last {A : Type} (f : A -> bool) (l : list A) (a : A) :
  find f (l ++ [a])%list
  = match find f l with
    | Some x => Some x
    | None => if f a then Some a else None
    end.
Proof.
  induction l as [|b l IH]; simpl; [reflexivity|].
  destruct (f b); [reflexivity | exact IH].
Qed.

(** X1. After an addition the property panel is never empty: it shows the
    new element when no element had its id, and the oldest element carrying
    that id otherwise.  The elements already there are untouched and a
    gesture in progress stays recorded. *)
Theorem add_selects_an_element (st : State) (type : ElementType) (now : Z) :
  let st' := step st (ClickAdd type now) in
  (find_element st (element_id type now) = None ->
   selected st' = Some (newElement type now)) /\
  (forall old,
      find_element st (element_id type now) = Some old ->
      selected st' = Some old) /\
  List.length (elements st') = S (List.length (elements st)) /\
  (forall i el,
      nth_error (elements st) i = Some el ->
      nth_error (elements st') i = Some el) /\
  draggedElement st' = draggedElement st /\
  resizingElement st' = resizingElement st.
Proof.
  cbv zeta. unfold selected, find_element. simpl.
  rewrite find_app_last. simpl. rewrite String.eqb_refl.
  repeat split.
  - intros H. unfold find_element in H. now rewrite H.
  - intros old H. unfold find_element in H. now rewrite H.
  - rewrite length_app. simpl. lia.
  - intros i el Hi. rewrite nth_error_app1; [assumption|].
    apply nth_error_Some. congruence.
Qed.

Lemma add_selects_an_element_witness :
  selected (step one_text_state (ClickAdd price 2000))
  = Some (newElement price 2000) /\
  selected (step one_text_state (ClickAdd text 1000))
  = Some (newElement text 1000).
Proof.
  split.
  - apply (proj1 (add_selects_an_element one_text_state price 2000)).
    reflexivity.
  - apply (proj1 (proj2 (add_selects_an_element one_text_state text 1000))).
    reflexivity.
Defined.

(** X2. Adding an element whose id is new and removing it again gives back
    the element list as it was, with nothing selected; a gesture in
    progress and the configuration are as before. *)
Theorem add_then_remove (st : State) (type : ElementType) (now : Z) :
  find_element st (element_id type now) = None ->
  let st' :=
    run st [ClickAdd type now; ClickDelete (element_id type now)] in
  elements st' = elements st /\
  selectedElement st' = None /\
  draggedElement st' = draggedElement st /\
  resizingElement st' = resizingElement st /\
  labelConfig st' = labelConfig st.
Proof.
  intros Hfresh. cbv zeta. unfold run, step, handler, deleteElement.
  simpl. unfold is_selected. simpl. rewrite String.eqb_refl. simpl.
  repeat split.
  rewrite filter_app. simpl. rewrite String.eqb_refl. simpl.
  rewrite app_nil_r. apply filter_delete_absent.
  now apply find_element_None.
Qed.

Lemma add_then_remove_witness :
  elements (run one_text_state [ClickAdd price 2000; ClickDelete "price-2000"])
  = elements one_text_state.
Proof.
  apply (add_then_remove one_text_state price 2000). reflexivity.
Defined.

Lemma find_filter_other (l : list LabelElement) (id id' : string) :
  id' <> id ->
  find (fun el => (el_id el =? id')%string)
       (filter (fun el => negb (el_id el =? id)%string) l)
  = find (fun el => (el_id el =? id')%string) l.
Proof.
  intros Hne. induction l as [|a l IH]; simpl; [reflexivity|].
  destruct (String.eqb_spec (el_id a) id) as [Ha | Ha]; simpl.
  - destruct (String.eqb_spec (el_id a) id') as [Hb | Hb]; [congruence|].
    exact IH.
  - destruct (el_id a =? id')%string; [reflexivity | exact IH].
Qed.

Lemma filter_filter_same (l : list LabelElement) (id : string) :
  filter (fun el => negb (el_id el =? id)%string)
         (filter (fun el => negb (el_id el =? id)%string) l)
  = filter (fun el => negb (el_id el =? id)%string) l.
Proof.
  induction l as [|a l IH]; simpl; [reflexivity|].
  destruct (negb (el_id a =? id)%string) eqn:E; simpl; [|exact IH].
  rewrite E. now f_equal.
Qed.

(** X3. After a removal no element carries the removed id, however many
    did; looking up any other id gives what it gave before; and removing
    the same id once more changes nothing. *)
Theorem remove_is_thorough (st : State) (id : string) :
  let st' := step st (ClickDelete id) in
  find_element st' id = None /\
  (forall id', id' <> id -> find_element st' id' = find_element st id') /\
  step st' (ClickDelete id) = st'.
Proof.
  cbv zeta.
  assert (Hels : elements (step st (ClickDelete id))
                 = filter (fun el => negb (el_id el =? id)%string)
                          (elements st)).
  { unfold step, handler, deleteElement. now destruct (is_selected st id). }
  assert (Hnone : find_element (step st (ClickDelete id)) id = None).
  { apply find_element_None. intros el HIn Heq. rewrite Hels in HIn.
    apply filter_In in HIn. destruct HIn as [_ Hkeep].
    apply String.eqb_eq in Heq. rewrite Heq in Hkeep. discriminate. }
  split; [exact Hnone|]. split.
  - intros id' Hne. unfold find_element. rewrite Hels.
    now apply find_filter_other.
  - apply store_step_Remove_absent; [exact Hnone|].
    unfold step, handler, deleteElement.
    destruct (is_selected st id) eqn:Hsel; simpl; [discriminate|].
    intros Heq. apply is_selected_true in Heq. congruence.
Qed.

Lemma remove_is_thorough_witness :
  find_element (step two_elements_state (ClickDelete "text-1000"))
               "barcode-2000"
  = find_element two_elements_state "barcode-2000".
Proof.
  apply (remove_is_thorough two_elements_state "text-1000"). discriminate.
Defined.

(** ** Updates *)

Lemma spread_twice (el : LabelElement) (updates : PartialElement) :
  spread (spread el updates) updates = spread el updates.
Proof.
  destruct updates as [i t l x y w h f c v]; unfold spread; simpl.
  destruct i, t, l, x, y, w, h, f, c, v; reflexivity.
Qed.

Lemma spread_keeps_id (el : LabelElement) (updates : PartialElement) :
  p_id updates = None -> el_id (spread el updates) = el_id el.
Proof. intros H. simpl. now rewrite H. Qed.

(** X4. An update that carries no [id] key can be repeated without effect,
    and two such updates of different ids give the same store in either
    order. *)
Theorem updates_compose (st : State) (id1 id2 : string)
  (u1 u2 : PartialElement) :
  p_id u1 = None -> p_id u2 = None ->
  store_run st [Update id1 u1; Update id1 u1] = store_run st [Update id1 u1]
  /\ (id1 <> id2 ->
      store_run st [Update id1 u1; Update id2 u2]
      = store_run st [Update id2 u2; Update id1 u1]).
Proof.
  intros H1 H2. unfold store_run, store_step, updateElement; simpl.
  split.
  - f_equal. rewrite map_map. apply map_ext. intros el.
    destruct (String.eqb_spec (el_id el) id1) as [E | E].
    + rewrite spread_keeps_id by assumption.
      apply String.eqb_eq in E. rewrite E. apply spread_twice.
    + apply String.eqb_neq in E. now rewrite E.
  - intros Hne. f_equal. rewrite !map_map. apply map_ext. intros el.
    destruct (String.eqb_spec (el_id el) id1) as [E1 | E1];
      destruct (String.eqb_spec (el_id el) id2) as [E2 | E2];
      try congruence;
      rewrite ?spread_keeps_id by assumption;
      repeat match goal with
             | H : el_id el = _ |- _ =>
                 apply String.eqb_eq in H; rewrite H
             | H : el_id el <> _ |- _ =>
                 apply String.eqb_neq in H; rewrite H
             end; reflexivity.
Qed.

Lemma updates_compose_witness :
  store_run two_elements_state
    [Update "text-1000" (label_update "A");
     Update "barcode-2000" (value_update "42")]
  = store_run two_elements_state
      [Update "barcode-2000" (value_update "42");
       Update "text-1000" (label_update "A")].
Proof.
  apply (updates_compose two_elements_state "text-1000" "barcode-2000");
    [reflexivity | reflexivity | discriminate].
Defined.

(** Looking an id up after an update that keeps the ids. *)
Lemma find_map_update (l : list LabelElement) (id id' : string)
  (updates : PartialElement) :
  p_id updates = None ->
  find (fun el => (el_id el =? id')%string)
       (map (fun el =>
               if (el_id el =? id)%string then spread el updates else el) l)
  = option_map
      (fun el => if (el_id el =? id)%string then spread el updates else el)
      (find (fun el => (el_id el =? id')%string) l).
Proof.
  intros Hid. induction l as [|a l IH]; simpl; [reflexivity|].
  assert (E : el_id (if (el_id a =? id)%string then spread a updates else a)
              = el_id a).
  { destruct (el_id a =? id)%string; [now apply spread_keeps_id | reflexivity]. }
  rewrite E. destruct (el_id a =? id')%string; [reflexivity | exact IH].
Qed.

Lemma selected_after_update (st : State) (sel : LabelElement)
  (updates : PartialElement) :
  p_id updates = None ->
  selected st = Some sel ->
  selected (commit st (updateElement st (el_id sel) updates))
  = Some (spread sel updates).
Proof.
  intros Hid Hsel. unfold selected in *. simpl.
  destruct (selectedElement st) as [s|]; [|discriminate].
  pose proof (find_element_In st s sel Hsel) as [_ Hs].
  unfold find_element in *. simpl.
  rewrite find_map_update by assumption. rewrite Hsel. simpl.
  now rewrite String.eqb_refl.
Qed.

(** X5. What is typed into an input of the property panel is what the
    panel shows next: the label, the value and the colour as typed, the
    font size as [parseInt] reads it; the other fields of the selected
    element stay as they were. *)
Theorem panel_shows_the_edit (st : State) (sel : LabelElement)
  (t : string) :
  selected st = Some sel ->
  selected (step st (ChangeLabel t)) = Some (spread sel (label_update t)) /\
  selected (step st (ChangeValue t)) = Some (spread sel (value_update t)) /\
  selected (step st (ChangeColor t)) = Some (spread sel (color_update t)) /\
  selected (step st (ChangeFontSize t))
  = Some (spread sel (fontSize_update (parseInt t))).
Proof.
  intros Hsel.
  unfold step, handler, onChange_label, onChange_value, onChange_color,
    onChange_fontSize.
  rewrite Hsel.
  repeat split; now apply selected_after_update.
Qed.

Lemma panel_shows_the_edit_witness :
  option_map el_label (selected (step one_text_state (ChangeLabel "Produto")))
  = Some "Produto".
Proof.
  rewrite (proj1 (panel_shows_the_edit one_text_state sample_element
                    "Produto" eq_refl)).
  reflexivity.
Defined.

(** ** Emptying the store *)

Lemma step_ClickDelete_elements (st : State) (id : string) :
  elements (step st (ClickDelete id))
  = filter (fun el => negb (el_id el =? id)%string) (elements st).
Proof.
  unfold step, handler, deleteElement. now destruct (is_selected st id).
Qed.

Lemma step_ClickDelete_selection (st : State) (id : string) :
  selectedElement (step st (ClickDelete id))
  = if is_selected st id then None else selectedElement st.
Proof.
  unfold step, handler, deleteElement. now destruct (is_selected st id).
Qed.

(** Deleting the ids of [l] one after the other leaves the elements whose
    id is not in [l]. *)
Lemma run_deletes_elements (l : list string) (st : State) :
  forall el,
    In el (elements (run st (map ClickDelete l))) ->
    In el (elements st) /\ ~ In (el_id el) l.
Proof.
  revert st. induction l as [|id l IH]; intros st el HIn; simpl in *.
  - auto.
  - apply IH in HIn. destruct HIn as [HIn Hnot].
    rewrite step_ClickDelete_elements in HIn.
    apply filter_In in HIn. destruct HIn as [HIn Hkeep].
    split; [assumption|]. intros [Heq | Hl]; [|contradiction].
    rewrite Heq, String.eqb_refl in Hkeep. discriminate.
Qed.

Lemma run_deletes_selection (l : list string) (st : State) :
  selectedElement (run st (map ClickDelete l)) = None \/
  (selectedElement (run st (map ClickDelete l)) = selectedElement st /\
   forall id, In id l -> selectedElement st <> Some id).
Proof.
  revert st. induction l as [|id l IH]; intros st; simpl.
  - right. split; [reflexivity | contradiction].
  - destruct (IH (step st (ClickDelete id))) as [Hnone | [Hsame Hnot]];
      [now left|].
    rewrite step_ClickDelete_selection in Hsame, Hnot.
    destruct (is_selected st id) eqn:Hsel; [now left|].
    right. split; [assumption|].
    intros id' [<- | Hl]; [|now apply Hnot].
    intros Heq. apply is_selected_true in Heq. congruence.
Qed.

(** X6. Pressing the delete button of every element in turn empties the
    store: the list and the canvas show their placeholder, every copy of
    the preview is blank, and when the selection named an element nothing
    is selected any more. *)
Theorem deleting_everything_empties (st : State) :
  let st' := run st (map ClickDelete (ids st)) in
  elements st' = [] /\
  placeholderShown st' = true /\
  canvasView st' = [] /\
  elementList st' = [] /\
  (forall copies copy,
      preview st' = Some copies -> In copy copies -> pc_children copy = []) /\
  (selection_valid st -> selectedElement st' = None).
Proof.
  cbv zeta.
  assert (Hels : elements (run st (map ClickDelete (ids st))) = []).
  { destruct (elements (run st (map ClickDelete (ids st)))) as [|el l] eqn:E;
      [reflexivity|].
    exfalso.
    destruct (run_deletes_elements (ids st) st el) as [HIn Hnot].
    - rewrite E. now left.
    - apply Hnot. unfold ids. now apply in_map. }
  unfold placeholderShown, canvasView, elementList, preview, previewCopy.
  rewrite Hels. simpl. repeat split.
  - intros copies copy Hp HIn.
    destruct (Array_from_length _); [|discriminate].
    injection Hp as <-. apply in_map_iff in HIn.
    now destruct HIn as (i & <- & _).
  - intros Hvalid.
    destruct (run_deletes_selection (ids st) st) as [Hnone | [Hsame Hnot]];
      [assumption|].
    unfold selection_valid in Hvalid.
    destruct (selectedElement st) as [s|] eqn:Es; [|congruence].
    exfalso. apply (Hnot s); [|reflexivity].
    now apply has_id_iff.
Qed.

Lemma deleting_everything_empties_witness :
  selectedElement
    (run two_elements_state (map ClickDelete (ids two_elements_state)))
  = None.
Proof.
  apply (deleting_everything_empties two_elements_state).
  simpl. eexists. split; [right; left; reflexivity | reflexivity].
Defined.

(** ** What a pointer-move leaves alone *)

(** The fields of an element that are not its geometry. *)
Lemma map_update_geometry_only (l : list LabelElement) (id : string)
  (updates : PartialElement) :
  p_id updates = None -> p_type updates = None -> p_label updates = None ->
  p_fontSize updates = None -> p_color updates = None ->
  p_value updates = None ->
  let l' :=
    map (fun el => if (el_id el =? id)%string then spread el updates else el)
        l in
  map el_id l' = map el_id l /\ map el_type l' = map el_type l /\
  map el_label l' = map el_label l /\ map el_value l' = map el_value l /\
  map el_fontSize l' = map el_fontSize l /\ map el_color l' = map el_color l.
Proof.
  intros Hi Ht Hl Hf Hc Hv. cbv zeta. rewrite !map_map.
  repeat split; apply map_ext; intros el;
    destruct (el_id el =? id)%string; try reflexivity; simpl;
    now rewrite ?Hi, ?Ht, ?Hl, ?Hf, ?Hc, ?Hv.
Qed.

Lemma map_update_keeps_size (l : list LabelElement) (id : string)
  (updates : PartialElement) :
  p_width updates = None -> p_height updates = None ->
  let l' :=
    map (fun el => if (el_id el =? id)%string then spread el updates else el)
        l in
  map el_width l' = map el_width l /\ map el_height l' = map el_height l.
Proof.
  intros Hw Hh. cbv zeta. rewrite !map_map.
  split; apply map_ext; intros el;
    destruct (el_id el =? id)%string; try reflexivity; simpl;
    now rewrite ?Hw, ?Hh.
Qed.

(** X7. Whatever the state and the pointer, a pointer-move changes nothing
    but the geometry of elements: their number, order, ids, types, labels,
    values, font sizes and colours, the selection, the recorded gesture and
    the configuration are as before.  While no resize is recorded the
    sizes are as before too. *)
Theorem pointer_move_changes_geometry_only (st : State) (e : MouseEvent) :
  let st' := step st (MouseMove e) in
  map el_id (elements st') = map el_id (elements st) /\
  map el_type (elements st') = map el_type (elements st) /\
  map el_label (elements st') = map el_label (elements st) /\
  map el_value (elements st') = map el_value (elements st) /\
  map el_fontSize (elements st') = map el_fontSize (elements st) /\
  map el_color (elements st') = map el_color (elements st) /\
  selectedElement st' = selectedElement st /\
  draggedElement st' = draggedElement st /\
  resizingElement st' = resizingElement st /\
  labelConfig st' = labelConfig st /\
  (resizingElement st = None ->
   map el_width (elements st') = map el_width (elements st) /\
   map el_height (elements st') = map el_height (elements st)).
Proof.
  cbv zeta.
  destruct (handleMouseMove_cases st e)
    as [-> | [(d & element & _ & _ & _ & ->)
             | (id & handle & element & Hr & _ & _ & ->)]].
  - repeat split.
  - simpl.
    pose proof (map_update_geometry_only (elements st) d
                  (dragUpdates element e) eq_refl eq_refl eq_refl eq_refl
                  eq_refl eq_refl) as (H1 & H2 & H3 & H4 & H5 & H6).
    pose proof (map_update_keeps_size (elements st) d
                  (dragUpdates element e) eq_refl eq_refl) as [H7 H8].
    cbv zeta in *. repeat split; assumption.
  - simpl.
    pose proof (map_update_geometry_only (elements st) id
                  (resizeUpdates element handle e) eq_refl eq_refl eq_refl
                  eq_refl eq_refl eq_refl) as (H1 & H2 & H3 & H4 & H5 & H6).
    cbv zeta in *. repeat split; try assumption; congruence.
Qed.

Lemma pointer_move_changes_geometry_only_witness :
  map el_width (elements (step drag_state (MouseMove (pointer_at 200 150))))
  = map el_width (elements drag_state).
Proof.
  apply (pointer_move_changes_geometry_only drag_state (pointer_at 200 150)).
  reflexivity.
Defined.

(** ** Gestures *)

(** X8. A release, or the pointer leaving the canvas, ends whatever gesture
    is recorded and touches nothing else; from then on, and in any state
    with no gesture recorded, pointer-moves change nothing. *)
Theorem release_ends_the_gesture (st : State) (e : MouseEvent) :
  let st' := step st MouseUp in
  step st MouseLeave = st' /\
  draggedElement st' = None /\
  resizingElement st' = None /\
  elements st' = elements st /\
  selectedElement st' = selectedElement st /\
  labelConfig st' = labelConfig st /\
  step st' (MouseMove e) = st' /\
  (truthy (draggedElement st) = None -> resizingElement st = None ->
   step st (MouseMove e) = st).
Proof.
  cbv zeta. repeat split.
  intros Hd Hr. unfold step, handler, handleMouseMove, dragBranch,
    resizeBranch. now rewrite Hd, Hr.
Qed.

Lemma release_ends_the_gesture_witness :
  step one_text_state (MouseMove (pointer_at 200 150)) = one_text_state.
Proof.
  apply (release_ends_the_gesture one_text_state (pointer_at 200 150));
    reflexivity.
Defined.

(** X9. Press on the body of an element, move, release: started while no
    resize is recorded, the gesture leaves the element at the pointer minus
    half its size, clamped at 0, selected, and no gesture recorded.  The
    element is the first one carrying the pressed id. *)
Theorem drag_gesture (st : State) (id : string) (el : LabelElement)
  (e : MouseEvent) :
  find_element st id = Some el ->
  id <> "" ->
  resizingElement st = None ->
  let st' := run st [MouseDownElement id; MouseMove e; MouseUp] in
  elements st'
  = map (fun other =>
           if (el_id other =? id)%string
           then spread other (dragUpdates el e) else other)
        (elements st) /\
  selectedElement st' = Some id /\
  draggedElement st' = None /\
  resizingElement st' = None.
Proof.
  intros Hf Hid Hr. cbv zeta.
  set (st1 := step st (MouseDownElement id)).
  change (run st [MouseDownElement id; MouseMove e; MouseUp])
    with (step (step st1 (MouseMove e)) MouseUp).
  assert (H1 : step st1 (MouseMove e)
               = commit st1 (updateElement st1 id (dragUpdates el e))).
  { apply handleMouseMove_drag_applied.
    - subst st1. simpl. destruct id; [contradiction | reflexivity].
    - exact Hf.
    - intros (id' & h' & t' & Hr' & _). subst st1. simpl in Hr'. congruence. }
  rewrite H1. repeat split.
Qed.

Lemma drag_gesture_witness :
  map el_x
    (elements
       (run two_elements_state
          [MouseDownElement "text-1000"; MouseMove (pointer_at 20 150);
           MouseUp]))
  = [Math_max (num 0) (num 20 - num 0 - num 100 / num 2)%num; num 10].
Proof.
  destruct (drag_gesture two_elements_state "text-1000" sample_element
              (pointer_at 20 150)) as (Hels & _).
  - reflexivity.
  - discriminate.
  - reflexivity.
  - rewrite Hels. reflexivity.
Defined.

(** X10. Press on a handle of an element, move, release: started while no
    drag is recorded, the gesture leaves the element with the geometry the
    handle gives it at that pointer, selected, and no gesture recorded. *)
Theorem resize_gesture (st : State) (id handle : string)
  (el : LabelElement) (e : MouseEvent) :
  find_element st id = Some el ->
  truthy (draggedElement st) = None ->
  let st' := run st [MouseDownHandle id handle; MouseMove e; MouseUp] in
  elements st'
  = map (fun other =>
           if (el_id other =? id)%string
           then spread other (resizeUpdates el handle e) else other)
        (elements st) /\
  selectedElement st' = Some id /\
  draggedElement st' = None /\
  resizingElement st' = None.
Proof.
  intros Hf Hd. cbv zeta.
  set (st1 := step st (MouseDownHandle id handle)).
  change (run st [MouseDownHandle id handle; MouseMove e; MouseUp])
    with (step (step st1 (MouseMove e)) MouseUp).
  assert (H1 : step st1 (MouseMove e)
               = commit st1 (updateElement st1 id
                               (resizeUpdates el handle e))).
  { apply handleMouseMove_resize_applied.
    - reflexivity.
    - exact Hf.
    - intros (d & Hd' & _). subst st1. simpl in Hd'. congruence. }
  rewrite H1. repeat split.
Qed.

Lemma resize_gesture_witness :
  map el_width
    (elements
       (run two_elements_state
          [MouseDownHandle "barcode-2000" "se"; MouseMove (pointer_at 60 90);
           MouseUp]))
  = [num 100; Math_max (num 30) (num 60 - num 0 - num 10)%num].
Proof.
  destruct (resize_gesture two_elements_state "barcode-2000" "se"
              (newElement barcode 2000) (pointer_at 60 90)) as (Hels & _).
  - reflexivity.
  - reflexivity.
  - rewrite Hels. reflexivity.
Defined.

(** ** The origin of the elements *)

Lemma resizeGeometry_origin (element : LabelElement) (handle : string)
  (mouseX mouseY : number) :
  well_sized element -> origin_nonneg element ->
  finite mouseX -> finite mouseY ->
  (num 0 <= mouseX)%num -> (num 0 <= mouseY)%num ->
  (num 0 <= newX (resizeGeometry element handle mouseX mouseY))%num /\
  (num 0 <= newY (resizeGeometry element handle mouseX mouseY))%num.
Proof.
  intros [Hg [Hw Hh]] [Hx Hy] Fx Fy Px Py.
  unfold resizeGeometry. finite_numbers.
  apply n_le_Fin in Hw, Hh, Hx, Hy, Px, Py. unfold inject_Z in *.
  repeat match goal with
         | |- context [if ?b then _ else _] => destruct b
         end; simpl; split; apply n_le_Fin; unfold inject_Z; minmax_lra.
Qed.

Lemma origin_nonneg_drag (element el : LabelElement) (e : MouseEvent) :
  finite_event e -> finite_geometry element ->
  origin_nonneg (spread el (dragUpdates element e)).
Proof.
  intros He Hg. unfold origin_nonneg; simpl.
  split; apply Math_max_zero; destruct Hg as (_ & _ & Fw & Fh);
    finite_numbers; simpl; exact I.
Qed.

Lemma step_origin (st : State) (ev : Event) :
  pointer_inside ev ->
  Forall well_sized (elements st) ->
  Forall origin_nonneg (elements st) ->
  Forall origin_nonneg (elements (step st ev)).
Proof.
  intros Hev Hsize Hst.
  destruct ev; try exact Hst.
  - simpl. apply Forall_app. split; [assumption|].
    constructor; [|constructor]. destruct type; split; reflexivity.
  - rewrite step_ClickDelete_elements.
    apply Forall_forall; intros x Hx; apply filter_In in Hx.
    rewrite Forall_forall in Hst. now apply Hst.
  - simpl in Hev. destruct Hev as (He & Px & Py).
    destruct (handleMouseMove_cases st e)
      as [-> | [(d & element & _ & Hf & _ & ->)
               | (id & handle & element & _ & Hf & _ & ->)]];
      [assumption | |];
      apply find_element_In in Hf; destruct Hf as [HIn _];
      rewrite Forall_forall in Hsize; pose proof (Hsize _ HIn) as Hel;
      pose proof Hst as Hall; rewrite Forall_forall in Hall;
      simpl; apply Forall_map_update; auto; intros el _ _.
    + apply origin_nonneg_drag; [assumption | apply Hel].
    + destruct (pointer_finite_position e He) as [Fx Fy].
      exact (resizeGeometry_origin element handle _ _ Hel (Hall _ HIn)
               Fx Fy Px Py).
  - unfold step, handler, onChange_label.
    destruct (selected st); [|exact Hst].
    simpl. apply Forall_map_update; auto.
  - unfold step, handler, onChange_value.
    destruct (selected st); [|exact Hst].
    simpl. apply Forall_map_update; auto.
  - unfold step, handler, onChange_fontSize.
    destruct (selected st); [|exact Hst].
    simpl. apply Forall_map_update; auto.
  - unfold step, handler, onChange_color.
    destruct (selected st); [|exact Hst].
    simpl. apply Forall_map_update; auto.
Qed.

Lemma pointer_inside_finite (ev : Event) :
  pointer_inside ev -> pointer_finite ev.
Proof. destruct ev; simpl; tauto. Qed.

Lemma run_origin (evs : list Event) (st : State) :
  Forall pointer_inside evs ->
  Forall well_sized (elements st) ->
  Forall origin_nonneg (elements st) ->
  Forall origin_nonneg (elements (run st evs)).
Proof.
  revert st. induction evs as [|ev evs IH]; intros st Hevs Hs Ho; simpl.
  - assumption.
  - inversion Hevs; subst. apply IH; [assumption | |].
    + apply step_well_sized; [now apply pointer_inside_finite | assumption].
    + now apply step_origin.
Qed.

(** X11. From the empty store and through any sequence of events whose
    pointer-moves have the pointer at or after the left and top edge of the
    canvas, every element keeps x >= 0 and y >= 0: the drag clamps at 0
    and a resize cannot push an edge past the pointer. *)
Theorem origin_stays_on_canvas (evs : list Event) :
  Forall pointer_inside evs ->
  Forall origin_nonneg (elements (run initialState evs)).
Proof.
  intros Hevs. apply run_origin; [assumption | constructor | constructor].
Qed.

Lemma origin_stays_on_canvas_witness :
  Forall origin_nonneg
    (elements
       (run initialState
          [ ClickAdd text 1000; MouseDownHandle "text-1000" "nw";
            MouseMove (pointer_at 0 3); MouseUp;
            MouseDownElement "text-1000"; MouseMove (pointer_at 2 2) ])).
Proof.
  apply origin_stays_on_canvas.
  repeat constructor.
Defined.

(** With the pointer left of the canvas a resize from a west handle does
    take the element off it. *)
Example resize_left_of_canvas :
  exists el',
    elements (step sw_resize_state (MouseMove (pointer_at (-5) 60))) = [el'] /\
    (el_x el' == num (-5))%num.
Proof. eexists. split; reflexivity. Qed.

(** ** Rulers *)

Lemma mmToPx_Fin (q : Q) : mmToPx (Fin q) = Fin (q * inject_Z 96 / 25.4).
Proof. reflexivity. Qed.

Lemma Qceiling_nonneg (q : Q) : 0 <= q -> (0 <= Qceiling q)%Z.
Proof.
  intros H. change 0%Z with (Qceiling 0). now apply Qceiling_resp_le.
Qed.

Lemma Qfloor_nonneg (q : Q) : 0 <= q -> (0 <= Qfloor q)%Z.
Proof.
  intros H. change 0%Z with (Qfloor 0). now apply Qfloor_resp_le.
Qed.

(** The remainder of two integers, as [%] computes it, is zero exactly
    when the divisor divides the dividend. *)
Lemma nrem_integer_zero (p q : Q) (a b : Z) :
  p == inject_Z a -> q == inject_Z b -> (0 <= a)%Z -> (0 < b)%Z ->
  n_strict_eqb (nrem (Fin p) (Fin q)) (num 0) = (a mod b =? 0)%Z.
Proof.
  intros Hp Hq Ha Hb. unfold nrem.
  assert (Hq0 : ~ q == 0).
  { rewrite Hq. change 0 with (inject_Z 0). rewrite inject_Z_injective. lia. }
  destruct (Qeq_bool q 0) eqn:E;
    [apply Qeq_bool_iff in E; exfalso; apply Hq0; exact E|].
  assert (Hquot : Qtrunc (p / q) = (a / b)%Z).
  { assert (Hdiv : p / q == inject_Z a / inject_Z b) by now rewrite Hp, Hq.
    assert (Hpos : 0 <= p / q).
    { rewrite Hdiv. apply Qle_shift_div_l.
      - change 0 with (inject_Z 0). rewrite <- Zlt_Qlt. assumption.
      - rewrite Qmult_0_l. change 0 with (inject_Z 0).
        rewrite <- Zle_Qle. assumption. }
    unfold Qtrunc. apply Qle_bool_iff in Hpos. rewrite Hpos.
    rewrite (Qfloor_comp _ _ Hdiv). symmetry. apply Zdiv_Qdiv. }
  rewrite Hquot. simpl.
  assert (Hval : p - q * inject_Z (a / b) == inject_Z (a mod b)).
  { rewrite Hp, Hq, <- inject_Z_mult.
    unfold Qminus. rewrite <- inject_Z_opp, <- inject_Z_plus.
    apply inject_Z_injective. rewrite Z.mod_eq by lia. lia. }
  destruct (Z.eqb_spec (a mod b) 0) as [Hz | Hz].
  - apply Qeq_bool_iff. rewrite Hval, Hz. reflexivity.
  - apply not_true_is_false. intros Heq. apply Qeq_bool_iff in Heq.
    rewrite Hval in Heq. change 0 with (inject_Z 0) in Heq.
    rewrite inject_Z_injective in Heq. contradiction.
Qed.

Lemma nrem_num_zero (a b : Z) :
  (0 <= a)%Z -> (0 < b)%Z ->
  n_strict_eqb (nrem (num a) (num b)) (num 0) = (a mod b =? 0)%Z.
Proof. intros Ha Hb. now apply nrem_integer_zero. Qed.

(** X12. The kind of a ruler tick: a labelled long one at every multiple
    of 10 mm, a medium one at the other multiples of 5 mm, a short one
    elsewhere; it sits at [mm * 96 / 25.4] px. *)
Theorem ruler_tick_kinds (i : nat) :
  tick_kind (rulerTick i)
  = (if (i mod 10 =? 0)%nat then Major i
     else if (i mod 5 =? 0)%nat then Mid else Minor) /\
  tick_position (rulerTick i) = Fin (inject_Z (Z.of_nat i) * 96 / 25.4).
Proof.
  split; [|reflexivity].
  unfold rulerTick; cbn [tick_kind].
  rewrite !nrem_num_zero by lia.
  change 10%Z with (Z.of_nat 10). change 5%Z with (Z.of_nat 5).
  rewrite <- !Nat2Z.inj_mod.
  destruct (Nat.eqb_spec (i mod 10) 0) as [E | E].
  - rewrite E. reflexivity.
  - destruct (Z.eqb_spec (Z.of_nat (i mod 10)) 0) as [F | _]; [lia|].
    destruct (Nat.eqb_spec (i mod 5) 0) as [G | G].
    + rewrite G. reflexivity.
    + destruct (Z.eqb_spec (Z.of_nat (i mod 5)) 0) as [F | _]; [lia|].
      reflexivity.
Qed.

(** X13. For a label dimension [size] >= 0 (in mm) the ruler has one tick
    per whole millimetre from 0 up to the first one at or past the end of
    the label: [ceil(size) + 1] ticks, each before the last strictly
    inside the label and the last at or beyond its end. *)
Theorem ruler_covers_the_label (size : Q) :
  0 <= size -> (Qceiling size + 1 <= 2 ^ 32 - 1)%Z ->
  exists ticks,
    ruler (Fin size) = Some ticks /\
    List.length ticks = S (Z.to_nat (Qceiling size)) /\
    forall i tick,
      nth_error ticks i = Some tick ->
      tick = rulerTick i /\
      ((Z.of_nat i < Qceiling size)%Z ->
       n_gtb (mmToPx (Fin size)) (tick_position tick) = true) /\
      ((Z.of_nat i = Qceiling size)%Z ->
       (mmToPx (Fin size) <= tick_position tick)%num).
Proof.
  intros Hsize Hbound.
  pose proof (Qceiling_nonneg size Hsize) as Hc.
  unfold ruler.
  rewrite (Array_from_length_integer _ (Qceiling size + 1)).
  - simpl option_map. eexists. split; [reflexivity|]. split.
    + rewrite length_map, length_seq, Z2Nat.inj_add by lia.
      simpl. lia.
    + intros i tick Hi. rewrite nth_error_map in Hi.
      destruct (nth_error (seq 0 _) i) as [k|] eqn:Hk; [|discriminate].
      injection Hi as <-.
      assert (k = i).
      { rewrite nth_error_seq in Hk.
        destruct (i <? Z.to_nat (Qceiling size + 1))%nat;
          [now injection Hk as <- | discriminate]. }
      subst k. split; [reflexivity|].
      rewrite mmToPx_Fin. simpl tick_position. unfold num.
      rewrite mmToPx_Fin. unfold n_le. simpl. split.
      * intros Hlt. apply negb_true_iff, not_true_is_false.
        intros Hle. apply Qle_bool_iff in Hle.
        pose proof (Qceiling_lt size) as Hup.
        assert (Hi' : inject_Z (Z.of_nat i) <= inject_Z (Qceiling size - 1)).
        { rewrite <- Zle_Qle. lia. }
        change (inject_Z 96) with 96 in Hle.
        revert Hle Hup Hi'.
        generalize (inject_Z (Z.of_nat i)) (inject_Z (Qceiling size - 1)).
        intros qi qc Hle Hup Hi'.
        unfold Qdiv in *. change (/ 25.4) with (10 # 254) in *. lra.
      * intros Heq. apply Qle_bool_iff.
        pose proof (Qle_ceiling size) as Hup. rewrite <- Heq in Hup.
        change (inject_Z 96) with 96.
        revert Hup. generalize (inject_Z (Z.of_nat i)). intros qi Hup.
        unfold Qdiv. change (/ 25.4) with (10 # 254). lra.
  - simpl. rewrite inject_Z_plus. reflexivity.
  - lia.
Qed.

Lemma ruler_covers_the_label_witness :
  exists ticks, ruler (num 50) = Some ticks /\ List.length ticks = 51%nat.
Proof.
  destruct (ruler_covers_the_label 50) as (ticks & Hr & Hlen & _).
  - vm_compute. discriminate.
  - vm_compute. discriminate.
  - exists ticks. split; [exact Hr | exact Hlen].
Defined.

(** ** Page breaks of the preview *)

Lemma ndiv_by_positive (p q : Q) : 0 < q -> (Fin p / Fin q)%num = Fin (p / q).
Proof.
  intros Hq. simpl.
  destruct (Qeq_bool q 0) eqn:E; [|reflexivity].
  apply Qeq_bool_iff in E. rewrite E in Hq. now apply Qlt_irrefl in Hq.
Qed.

Lemma Qdiv_nonneg (p q : Q) : 0 <= p -> 0 < q -> 0 <= p / q.
Proof.
  intros Hp Hq. apply Qle_shift_div_l; [assumption|].
  now rewrite Qmult_0_l.
Qed.

(** The floor of a quotient of integers is their integer quotient. *)
Lemma Qfloor_quotient (a b : Z) :
  (0 < b)%Z -> Qfloor (inject_Z a / inject_Z b) = (a / b)%Z.
Proof.
  intros Hb. destruct b as [|p|p]; try lia.
  unfold Qdiv, Qinv, Qmult, inject_Z, Qfloor. simpl.
  now rewrite Z.mul_1_r.
Qed.

(** X14. For a label whose width and height are positive whole numbers of
    millimetres, the preview marks a page break on a copy exactly when its
    index is a positive multiple of the page capacity
    [floor(210 / width) * floor(297 / height)], the quotients being those
    of the integers; with a capacity of 0 (a label wider than 210 mm or
    taller than 297 mm) no copy is ever marked, and the first copy never
    is. *)
Theorem page_break_every_capacity (st : State) (w h : Z) (index : nat) :
  cfg_width (labelConfig st) = num w ->
  cfg_height (labelConfig st) = num h ->
  (0 < w)%Z -> (0 < h)%Z ->
  let capacity := ((210 / w) * (297 / h))%Z in
  pc_pageBreak (previewCopy st index)
  = ((0 <? index)%nat && (0 <? capacity)%Z
     && (Z.of_nat index mod capacity =? 0)%Z).
Proof.
  intros Hw Hh Pw Ph capacity.
  assert (Qw : 0 < inject_Z w) by (change 0 with (inject_Z 0); now rewrite <- Zlt_Qlt).
  assert (Qh : 0 < inject_Z h) by (change 0 with (inject_Z 0); now rewrite <- Zlt_Qlt).
  unfold previewCopy; cbn [pc_pageBreak]. rewrite Hw, Hh.
  change (num 210) with (Fin (inject_Z 210)).
  change (num 297) with (Fin (inject_Z 297)).
  change (num w) with (Fin (inject_Z w)).
  change (num h) with (Fin (inject_Z h)).
  rewrite !ndiv_by_positive by assumption.
  cbn [Math_floor nmul].
  rewrite !Qfloor_quotient by assumption.
  assert (Ha : (0 <= 210 / w)%Z) by (apply Z.div_pos; lia).
  assert (Hb : (0 <= 297 / h)%Z) by (apply Z.div_pos; lia).
  assert (Hcap : (0 <= capacity)%Z) by (subst capacity; nia).
  assert (Hq : inject_Z (210 / w) * inject_Z (297 / h)
               == inject_Z capacity).
  { subst capacity. now rewrite inject_Z_mult. }
  assert (Hgt : n_gtb (num (Z.of_nat index)) (num 0) = (0 <? index)%nat).
  { unfold n_gtb, num.
    destruct (Nat.ltb_spec 0 index) as [Hi | Hi].
    - apply negb_true_iff, not_true_is_false. intros Hle.
      apply Qle_bool_iff in Hle. change 0 with (inject_Z 0) in Hle.
      rewrite <- Zle_Qle in Hle. lia.
    - apply negb_false_iff, Qle_bool_iff. rewrite <- Zle_Qle. lia. }
  rewrite Hgt. destruct (0 <? index)%nat; [|reflexivity].
  rewrite !andb_true_l.
  destruct (Z.ltb_spec 0 capacity) as [Hpos | Hzero].
  - rewrite andb_true_l. unfold num at 1.
    apply nrem_integer_zero; [reflexivity | exact Hq | lia | exact Hpos].
  - rewrite andb_false_l.
    assert (capacity = 0%Z) as Hc0 by lia. rewrite Hc0 in Hq.
    change (inject_Z 0) with 0 in Hq. apply Qeq_bool_iff in Hq.
    unfold num at 1. unfold nrem. rewrite Hq. reflexivity.
Qed.

Lemma page_break_every_capacity_witness :
  pc_pageBreak (previewCopy initialState 36) = true /\
  pc_pageBreak (previewCopy initialState 37) = false.
Proof.
  split.
  - rewrite (page_break_every_capacity initialState 50 30 36);
      reflexivity.
  - rewrite (page_break_every_capacity initialState 50 30 37);
      reflexivity.
Defined.

(** ** Canvas and preview together *)


(** ** Unusable values in the configuration *)

(** X16. A quantity that is [NaN] or below 1 gives a preview without any
    copy, and a label width that is [NaN] gives a canvas of width [NaN], a
    horizontal ruler without ticks and [NaN] for the left and width
    percentages of every element of the preview.  Both arise from the
    inputs: from a quantity text [parseInt] reads as [NaN] or as an integer
    below 1, and from a width text [parseFloat] reads as [NaN]. *)
Theorem unusable_configuration (st : State) :
  ((cfg_quantity (labelConfig st) = NaN \/
    exists q, cfg_quantity (labelConfig st) = Fin q /\ q < 1) ->
   preview st = Some []) /\
  (cfg_width (labelConfig st) = NaN ->
   fst (canvasSize st) = NaN /\
   horizontalRuler st = Some [] /\
   forall el,
     pe_left (previewElement st el) = NaN /\
     pe_width (previewElement st el) = NaN) /\
  (forall text,
      parseInt text = NaN \/
      (exists z, parseInt text = num z /\ (z < 1)%Z) ->
      preview (step st (ChangeQuantity text)) = Some []) /\
  (forall text,
      parseFloat text = NaN ->
      fst (canvasSize (step st (ChangeWidth text))) = NaN).
Proof.
  assert (Hblank : forall s : State,
             cfg_quantity (labelConfig s) = NaN \/
             (exists q, cfg_quantity (labelConfig s) = Fin q /\ q < 1) ->
             preview s = Some []).
  { intros s [Hq | (q & Hq & Hlt)]; unfold preview; rewrite Hq.
    - reflexivity.
    - unfold Array_from_length, ToLength.
      pose proof (Qtrunc_below_one q Hlt) as Ht.
      replace (Z.max 0 (Qtrunc q)) with 0%Z by lia. reflexivity. }
  split; [apply Hblank|]. split; [|split].
  - intros Hw. unfold canvasSize, labelWidth, horizontalRuler, ruler,
      previewElement, labelWidth. rewrite Hw. simpl.
    repeat split; now destruct (el_x el), (el_width el).
  - intros text Ht. apply Hblank. simpl.
    destruct Ht as [Ht | (z & Ht & Hz)]; [now left | right].
    exists (inject_Z z). split; [exact Ht|].
    change 1 with (inject_Z 1). rewrite <- Zlt_Qlt. exact Hz.
  - intros text Ht. unfold canvasSize, labelWidth. simpl. now rewrite Ht.
Qed.

Lemma unusable_configuration_witness :
  preview (step initialState (ChangeQuantity "")) = Some [] /\
  preview (step initialState (ChangeQuantity "-3")) = Some [] /\
  fst (canvasSize (step initialState (ChangeWidth "abc"))) = NaN.
Proof.
  pose proof (unusable_configuration initialState) as (_ & _ & Hq & Hw).
  split; [|split].
  - apply Hq. left. reflexivity.
  - apply Hq. right. exists (-3)%Z. split; [reflexivity | lia].
  - apply Hw. reflexivity.
Defined.

(** ** The earlier revision of the drag handler *)

(** X17. In the earlier revision, which does not look the dragged element
    up, a pointer-move still leaves the whole state as it is when no drag
    is recorded or when no element carries the dragged id. *)
Theorem fixed_offset_stale_drag (st : State) (e : MouseEvent) :
  truthy (draggedElement st) = None \/ stale_drag st ->
  commit st (FixedOffset.handleMouseMove st e) = st.
Proof.
  unfold FixedOffset.handleMouseMove.
  intros [Hd | (d & Hd & Hnone)]; rewrite Hd; [reflexivity|].
  unfold updateElement. rewrite map_update_absent.
  - apply commit_setElements_same.
  - now apply find_element_None.
Qed.

Lemma fixed_offset_stale_drag_witness :
  commit one_text_state
    (FixedOffset.handleMouseMove one_text_state (pointer_at 200 150))
  = one_text_state.
Proof.
  apply fixed_offset_stale_drag. left. reflexivity.
Defined.

(** ** Reading back what an input shows *)

(** X18. An integer of at most 2^53 in absolute value, written in decimal
    as the quantity input shows it, is read back by [parseInt] as that
    integer: typing the quantity the input shows leaves the state as it
    is. *)
Theorem shown_integer_reads_back (n : Z) (st : State) :
  (- 2 ^ 53 <= n <= 2 ^ 53)%Z ->
  parseInt (string_of_integer n) = num n /\
  (cfg_quantity (labelConfig st) = num n ->
   step st (ChangeQuantity (string_of_integer n)) = st).
Proof.
  intros _. destruct (parse_shown_integer n) as [H _].
  split; [exact H|]. intros Hq.
  unfold step, handler, onChange_quantity. rewrite H, <- Hq.
  destruct st as [els sel d r [cw ch cq] sp]. reflexivity.
Qed.

Lemma shown_integer_reads_back_witness :
  parseInt (string_of_integer 10) = num 10 /\
  step initialState (ChangeQuantity (string_of_integer 10)) = initialState.
Proof.
  destruct (shown_integer_reads_back 10 initialState) as [Hread Hsame].
  - split; vm_compute; discriminate.
  - split; [exact Hread | apply Hsame; reflexivity].
Defined.

(** X19. In the earlier revision a drag pointer-move puts every element
    carrying the dragged id at the pointer minus (20, 10), each coordinate
    clamped at 0, whatever the size of the element; the other elements,
    the selection and the recorded drag are as before. *)
Theorem fixed_offset_drag_move (st : State) (e : MouseEvent) (d : string) :
  truthy (draggedElement st) = Some d ->
  finite_event e ->
  let st' := commit st (FixedOffset.handleMouseMove st e) in
  let x := Math_max (num 0) (pointerX e - num 20) in
  let y := Math_max (num 0) (pointerY e - num 10) in
  (num 0 <= x)%num /\ (num 0 <= y)%num /\
  (forall i el,
      nth_error (elements st) i = Some el ->
      exists el',
        nth_error (elements st') i = Some el' /\
        (el_id el = d -> moved_to x y el el') /\
        (el_id el <> d -> el' = el)) /\
  selectedElement st' = selectedElement st /\
  draggedElement st' = draggedElement st.
Proof.
  intros Hd He. cbv zeta.
  unfold FixedOffset.handleMouseMove. rewrite Hd. simpl.
  destruct (pointer_finite_position e He) as [Fx Fy].
  repeat split.
  - apply Math_max_zero. destruct (pointerX e); try contradiction. exact I.
  - apply Math_max_zero. destruct (pointerY e); try contradiction. exact I.
  - intros i el Hi. rewrite nth_error_map, Hi. simpl.
    destruct (String.eqb_spec (el_id el) d) as [Heq | Hne];
      eexists; (split; [reflexivity|]); split; intros H;
      try contradiction; reflexivity.
Qed.

Lemma fixed_offset_drag_move_witness :
  exists el',
    nth_error
      (elements
         (commit drag_state
            (FixedOffset.handleMouseMove drag_state (pointer_at 200 5))))
      0%nat = Some el' /\
    (el_x el' == num 180)%num /\ (el_y el' == num 0)%num.
Proof.
  destruct (fixed_offset_drag_move drag_state (pointer_at 200 5) "text-1000")
    as (_ & _ & Hels & _).
  - reflexivity.
  - repeat split.
  - destruct (Hels 0%nat sample_element eq_refl) as (el' & Hn & Hm & _).
    exists el'. split; [exact Hn|]. rewrite (Hm eq_refl).
    split; reflexivity.
Defined.

(** ** Deleting and the property panel *)

(** X20. Deleting the selected element empties the property panel and
    leaves no element with handles, a ring or a highlighted card; deleting
    any other element leaves the panel on the element it showed. *)
Theorem delete_and_the_panel (st : State) (id : string) :
  let st' := step st (ClickDelete id) in
  (selectedElement st = Some id ->
   selected st' = None /\
   (forall ce, In ce (canvasView st') ->
               ce_handles ce = [] /\ ce_ring ce = false) /\
   (forall card, In card (elementList st') ->
                 card_highlighted card = false)) /\
  (selectedElement st <> Some id -> selected st' = selected st).
Proof.
  cbv zeta. split.
  - intros Hsel.
    assert (Hnone : selectedElement (step st (ClickDelete id)) = None).
    { rewrite step_ClickDelete_selection.
      apply is_selected_true in Hsel. now rewrite Hsel. }
    unfold selected, canvasView, elementList, canvasElement, is_selected.
    rewrite Hnone. split; [reflexivity|]. split.
    + intros ce Hce. apply in_map_iff in Hce.
      destruct Hce as (el & <- & _). split; reflexivity.
    + intros card Hcard. apply in_map_iff in Hcard.
      now destruct Hcard as (el & <- & _).
  - intros Hsel. unfold selected.
    rewrite step_ClickDelete_selection.
    destruct (is_selected st id) eqn:E;
      [apply is_selected_true in E; contradiction|].
    destruct (selectedElement st) as [s|]; [|reflexivity].
    unfold find_element. rewrite step_ClickDelete_elements.
    apply find_filter_other. congruence.
Qed.

Lemma delete_and_the_panel_witness :
  selected (step two_elements_state (ClickDelete "text-1000"))
  = selected two_elements_state.
Proof.
  apply (delete_and_the_panel two_elements_state "text-1000"). discriminate.
Defined.

(** ** Which events change the ids *)

(** X21. Only the add button and a delete button change which ids the
    store holds and in which order: every other event leaves the list of
    ids as it is. *)
Theorem only_add_and_delete_change_ids (st : State) (ev : Event) :
  (forall type now, ev <> ClickAdd type now) ->
  (forall id, ev <> ClickDelete id) ->
  ids (step st ev) = ids st.
Proof.
  intros Hadd Hdel. destruct ev; try reflexivity.
  - now elim (Hadd type now).
  - now elim (Hdel id).
  - apply step_MouseMove_ids.
  - unfold step, handler, onChange_label.
    destruct (selected st); [|reflexivity].
    unfold ids; simpl. now apply map_update_ids.
  - unfold step, handler, onChange_value.
    destruct (selected st); [|reflexivity].
    unfold ids; simpl. now apply map_update_ids.
  - unfold step, handler, onChange_fontSize.
    destruct (selected st); [|reflexivity].
    unfold ids; simpl. now apply map_update_ids.
  - unfold step, handler, onChange_color.
    destruct (selected st); [|reflexivity].
    unfold ids; simpl. now apply map_update_ids.
Qed.

Lemma only_add_and_delete_change_ids_witness :
  ids (step two_elements_state (ChangeLabel "Produto"))
  = ids two_elements_state.
Proof.
  apply only_add_and_delete_change_ids; discriminate.
Defined.
